(** * bin/etherscan.js: the ingestion pipeline, embedded and verified

    The script crawls the list of verified contracts of a listing site,
    reconciles every address with a second source and a ledger lookup, and
    hands one record per address to the contract store.

    Conventions of the embedding.
    - A JavaScript string is a [string]: a sequence of code units below 256
      (the Latin-1 range of UTF-16).
    - A JavaScript number is a [Z] (the script only counts pages and parses
      decimal integers); [NaN] is a separate constructor of [jsval].
    - A plain object used as a dictionary is a [gmap string _]; the keys the
      script looks up never name a property of [Object.prototype].
    - Asynchronous code is sequential code in the monad [M]: state passing
      over the store and a logical clock, with the list of emitted events as
      output and three ways of not returning ([Throw], [Exit], [OutOfFuel]). *)

From Stdlib Require Import ZArith Ascii String List Lia.
From stdpp Require Import base option list gmap strings pretty.

Local Open Scope string_scope.
Local Open Scope Z_scope.
Local Open Scope list_scope.

(** ** JavaScript strings and regular expressions *)

Module JS.

(** Character classes of the regular expressions in the script. *)
Definition between (lo hi : nat) (c : ascii) : bool :=
  (Nat.leb lo (nat_of_ascii c) && Nat.leb (nat_of_ascii c) hi)%bool.

(** [\d] *)
Definition is_digit : ascii -> bool := between 48 57.
(** [[a-z0-9]] *)
Definition is_lower_alnum (c : ascii) : bool :=
  (between 97 122 c || is_digit c)%bool.
(** [[0-9a-f]] *)
Definition is_lower_hex (c : ascii) : bool :=
  (is_digit c || between 97 102 c)%bool.
(** White space removed by [String.prototype.trim] (and skipped by
    [parseInt]), among code units below 256: TAB, LF, VT, FF, CR, SP, NBSP. *)
Definition is_space (c : ascii) : bool :=
  (between 9 13 c || Nat.eqb (nat_of_ascii c) 32
   || Nat.eqb (nat_of_ascii c) 160)%bool.

(** A string is truthy when it is not empty. *)
Definition truthy (s : string) : bool :=
  match s with EmptyString => false | String _ _ => true end.

(** The longest prefix whose characters satisfy [p], and what follows it. *)
Fixpoint span (p : ascii -> bool) (s : string) : string * string :=
  match s with
  | EmptyString => (EmptyString, EmptyString)
  | String c s' =>
      if p c then let (run, rest) := span p s' in (String c run, rest)
      else (EmptyString, s)
  end.

(** The longest suffix whose characters satisfy [p]. *)
Definition trailing_run (p : ascii -> bool) (s : string) : string :=
  String.rev (fst (span p (String.rev s))).

Definition trimStart (s : string) : string := snd (span is_space s).
Definition trimEnd (s : string) : string :=
  String.rev (trimStart (String.rev s)).
(** [s.trim()] *)
Definition trim (s : string) : string := trimEnd (trimStart s).

(** [s.slice(b, e)]: negative indices count from the end, both are clamped
    to the string, and an empty range gives the empty string. *)
Definition clamp (len i : Z) : Z :=
  if i <? 0 then Z.max (len + i) 0 else Z.min i len.
Definition slice (s : string) (b e : Z) : string :=
  let len := Z.of_nat (String.length s) in
  let from := clamp len b in
  let to := clamp len e in
  substring (Z.to_nat from) (Z.to_nat (to - from)) s.

(** [hay.includes(needle)] *)
Fixpoint includes (needle hay : string) : bool :=
  (String.prefix needle hay
   || match hay with
      | EmptyString => false
      | String _ hay' => includes needle hay'
      end)%bool.

(** [s.endsWith(suffix)] together with the part before the suffix. *)
Definition strip_suffix (suffix s : string) : option string :=
  let n := (String.length s - String.length suffix)%nat in
  if (Nat.leb (String.length suffix) (String.length s)
      && String.eqb (substring n (String.length suffix) s) suffix)%bool
  then Some (substring 0 n s) else None.

(** [text.split('\n')]: never empty, the empty text gives one empty line. *)
Fixpoint split (sep : ascii) (s : string) : list string :=
  match s with
  | EmptyString => [EmptyString]
  | String c s' =>
      if Ascii.eqb c sep then EmptyString :: split sep s'
      else match split sep s' with
           | line :: lines => String c line :: lines
           | [] => [String c EmptyString]
           end
  end.

(** [s.toLowerCase()] on code units below 256: A-Z, and the Latin-1
    capitals U+00C0..U+00DE except the multiplication sign U+00D7. *)
Definition lower_char (c : ascii) : ascii :=
  if (between 65 90 c
      || (between 192 222 c && negb (Nat.eqb (nat_of_ascii c) 215)))%bool
  then ascii_of_nat (nat_of_ascii c + 32) else c.
Fixpoint toLowerCase (s : string) : string :=
  match s with
  | EmptyString => EmptyString
  | String c s' => String (lower_char c) (toLowerCase s')
  end.

(** The value of a run of decimal digits, most significant first. *)
Fixpoint digits_value (acc : Z) (s : string) : Z :=
  match s with
  | EmptyString => acc
  | String c s' =>
      digits_value (10 * acc + Z.of_nat (nat_of_ascii c - 48)) s'
  end.

(** [Number(s)] for a capture of [\d+]. *)
Definition Number (s : string) : Z := digits_value 0 s.

(** The last character of a string, if any. *)
Fixpoint last_char (s : string) : option ascii :=
  match s with
  | EmptyString => None
  | String c EmptyString => Some c
  | String _ s' => last_char s'
  end.

(** Group 1 of [s.match(/([a-z0-9]+)$/)]; [None] is the [null] result.
    Without the [m] flag [$] is the end of the input, and the leftmost
    match is the whole trailing run of the class. *)
Definition match_trailing_alnum (s : string) : option string :=
  let run := trailing_run is_lower_alnum s in
  if truthy run then Some run else None.

(** Group 1 of [line.match(/([a-z0-9]+)\.js$/)]. *)
Definition match_js_file (line : string) : option string :=
  match strip_suffix ".js" line with
  | Some stem => match_trailing_alnum stem
  | None => None
  end.

(** Group 1 of [html.match(/^([0-9a-f]+)</)]: the hexadecimal run at the
    start, which must not be empty and must be followed by [<]. *)
Definition match_hex_tag (html : string) : option string :=
  let (run, rest) := span is_lower_hex html in
  if (truthy run && String.prefix "<" rest)%bool then Some run else None.

(** Group 1 of [text.match(/Page \d+ of (\d+)/)]: the first place where
    the pattern fits. Both digit runs are followed by a character that is
    not a digit, so only the longest runs can match. *)
Definition page_of_here (s : string) : option string :=
  if String.prefix "Page " s then
    let (x, rest) := span is_digit (substring 5 (String.length s - 5) s) in
    if (truthy x && String.prefix " of " rest)%bool then
      let y := fst (span is_digit
                      (substring 4 (String.length rest - 4) rest)) in
      if truthy y then Some y else None
    else None
  else None.
Fixpoint match_page_of (s : string) : option string :=
  match page_of_here s with
  | Some y => Some y
  | None => match s with
            | EmptyString => None
            | String _ s' => match_page_of s'
            end
  end.

End JS.

(** Values of the [optimise] field: a boolean, a number or [NaN]. *)
Inductive jsval : Type :=
| JSBool (b : bool)
| JSNumber (n : Z)
| JSNaN.

Definition jsval_truthy (v : jsval) : bool :=
  match v with
  | JSBool b => b
  | JSNumber n => negb (n =? 0)
  | JSNaN => false
  end.

(** [parseInt(s, 10)]: leading white space, an optional sign, then the longest
    run of decimal digits; [NaN] when that run is empty. *)
Definition parseInt10 (s : string) : jsval :=
  let body := JS.trimStart s in
  let (neg, rest) :=
    match body with
    | String "-" r => (true, r)
    | String "+" r => (false, r)
    | _ => (false, body)
    end in
  let run := fst (JS.span JS.is_digit rest) in
  if JS.truthy run
  then JSNumber (if neg then - JS.Number run else JS.Number run)
  else JSNaN.

(** ** Data model *)

(** [contract.info] as assembled by [fetchAddress]. *)
Module Info.
Record t : Type := mk {
  name : string;
  entrypoint : string;
  compiler : string;
  optimise : jsval;
  network : string;
  txid : string;
  address : string;
  constructor : string
}.
End Info.

(** The record handed to [contractLoader.save]. *)
Module Contract.
Record t : Type := mk {
  src : gmap string string;
  abi : string;
  bin : string;
  info : Info.t
}.
(** The store is keyed by address and network. *)
Definition key (c : t) : string * string :=
  (Info.address (info c), Info.network (info c)).
End Contract.

(** What [fetchAddressEtherscan] returns. *)
Module Etherscan.
Record t : Type := mk {
  name : string;
  compiler : string;
  optimise : jsval;
  src : string;
  abi : string;
  cargs : string
}.
End Etherscan.

(** What [fetchAddressBlockchair] returns. *)
Module Blockchair.
Record t : Type := mk { txid : string; bin : string }.
End Blockchair.

(** What [blockchain.getTxInfo] resolves to. *)
Module TxInfo.
Record t : Type := mk { address : string; bin : string }.
End TxInfo.

(** The resources [fetchText] is asked for:
    - [Manifest]: https://raw.githubusercontent.com/ethereum/solc-bin/gh-pages/bin/list.txt
    - [AddressPage a]: https://etherscan.io/address/a
    - [ContractsVerified p]: https://etherscan.io/contractsVerified/p
    - [Calls a]: https://api.blockchair.com/ethereum/calls?q=recipient(a),type(create) *)
Inductive request : Type :=
| Manifest
| AddressPage (address : string)
| ContractsVerified (page : Z)
| Calls (address : string).

(** The answer of [node-fetch]: a rejection, or a status and a body. *)
Inductive httpResult : Type :=
| NetworkError
| Response (status : Z) (body : string).

(** The cheerio selections [fetchAddressEtherscan] reads from an address
    page, before trimming: the cells 1 and 3 of the first and of the second
    table, the two [pre] blocks found by id, and the [.html()] of the fourth
    [pre] ([None] is [null]). *)
Record detailDoc : Type := {
  td_name : string;
  td_compiler : string;
  td_optimization : string;
  td_runs : string;
  pre_editor : string;
  pre_abi : string;
  pre_cargs_html : option string
}.

(** The cheerio selections [fetchPage] reads from a listing page: the anchor
    text of every row, in document order, and the text of the document. *)
Record listingDoc : Type := {
  anchors : list string;
  doc_text : string
}.

(** The shape of the source-B answer: [{data: [{transaction_hash}]}]. *)
Record callsRow : Type := { transaction_hash : string }.
Record callsResult : Type := { data : list callsRow }.

(** The sites at which the script asserts. *)
Inductive assertion : Type :=
| StatusIs200
| ConstructorArgumentsValid
| ExactlyOneRow (received : nat)
| SameAddress
| CompilerVersionDefined (address : string)
| PageFooterFound.

Inductive error : Type :=
| AssertionError (site : assertion)
| TypeError
| SyntaxError
| FetchError
| LedgerError.

Inductive logSymbol : Type := info | success.

(** The lines written by [console.log]. *)
Inductive message : Type :=
| ExistedContractIsReached
| AlreadyExists (address : string)
| LoadAddress (address : string)
| Added (address : string)
| LoadPage (page : Z).

(** Every interaction with the outside, with its answer. *)
Inductive event : Type :=
| EvFetch (req : request) (id : option string) (res : httpResult)
| EvExists (address network : string) (found : bool)
| EvGetTxInfo (network txid : string) (res : option TxInfo.t)
| EvSave (c : Contract.t) (added : bool)
| EvLog (sym : logSymbol) (msg : message).

(** The outside world. Answers may change over time: they depend on the
    logical clock, which counts the events so far. The two tables are the
    modules [lib/compilers-map] and [lib/etherscan-constructor-arguments]. *)
Record Env : Type := {
  http : nat -> request -> httpResult;
  cheerio_detail : string -> detailDoc;
  cheerio_listing : string -> listingDoc;
  JSON_parse : string -> option callsResult;
  ledger : nat -> string -> string -> option TxInfo.t;
  other_writers : nat -> gmap (string * string) Contract.t;
  compilersMap : gmap string string;
  etherscanConstructorArguments : gmap string string
}.

Record State : Type := {
  store : gmap (string * string) Contract.t;
  clock : nat
}.

(** ** The effect monad *)

Inductive outcome (A : Type) : Type :=
| Ok (a : A)
| Throw (e : error)
| Exit (code : Z)
| OutOfFuel.
Arguments Ok {A} a.
Arguments Throw {A} e.
Arguments Exit {A} code.
Arguments OutOfFuel {A}.

Definition M (A : Type) : Type :=
  Env -> State -> outcome A * State * list event.

Definition ret {A} (a : A) : M A := fun _ s => (Ok a, s, []).

Definition bind {A B} (m : M A) (f : A -> M B) : M B :=
  fun env s =>
    match m env s with
    | (Ok a, s1, t1) =>
        match f a env s1 with (r, s2, t2) => (r, s2, t1 ++ t2) end
    | (Throw e, s1, t1) => (Throw e, s1, t1)
    | (Exit c, s1, t1) => (Exit c, s1, t1)
    | (OutOfFuel, s1, t1) => (OutOfFuel, s1, t1)
    end.

Notation "x <- m ;; k" := (bind m (fun x => k))
  (at level 100, m at next level, right associativity).
Notation "m ;;; k" := (bind m (fun _ => k))
  (at level 100, right associativity).

Definition throw {A} (e : error) : M A := fun _ s => (Throw e, s, []).
(** [process.exit(code)] *)
Definition process_exit {A} (code : Z) : M A := fun _ s => (Exit code, s, []).
Definition out_of_fuel {A} : M A := fun _ s => (OutOfFuel, s, []).
Definition ask : M Env := fun env s => (Ok env, s, []).

Definition tick (s : State) (st : gmap (string * string) Contract.t) : State :=
  {| store := st; clock := S (clock s) |}.

(** [console.log(sym, msg)] *)
Definition console_log (sym : logSymbol) (msg : message) : M unit :=
  fun _ s => (Ok tt, tick s (store s), [EvLog sym msg]).

(** [assert.ok(cond)] and [assert.equal(a, b)] with [cond := a == b] *)
Definition assert (cond : bool) (site : assertion) : M unit :=
  if cond then ret tt else throw (AssertionError site).

(** [for (const x of xs) await f(x)] *)
Fixpoint for_of {A} (xs : list A) (f : A -> M unit) : M unit :=
  match xs with
  | [] => ret tt
  | x :: xs' => f x ;;; for_of xs' f
  end.

(** [await Promise.all([ma, mb])]: both calls are started and the results are
    joined. The events of the two branches interleave in an order the timers
    decide; the embedding lists those of the first branch first and reports
    the rejection of the first branch when both reject. *)
Definition Promise_all2 {A B} (ma : M A) (mb : M B) : M (A * B) :=
  fun env s =>
    match ma env s with
    | (Ok a, s1, t1) =>
        match mb env s1 with
        | (Ok b, s2, t2) => (Ok (a, b), s2, t1 ++ t2)
        | (Throw e, s2, t2) => (Throw e, s2, t1 ++ t2)
        | (Exit c, s2, t2) => (Exit c, s2, t1 ++ t2)
        | (OutOfFuel, s2, t2) => (OutOfFuel, s2, t1 ++ t2)
        end
    | (Throw e, s1, t1) =>
        match mb env s1 with
        | (Exit c, s2, t2) => (Exit c, s2, t1 ++ t2)
        | (OutOfFuel, s2, t2) => (OutOfFuel, s2, t1 ++ t2)
        | (_, s2, t2) => (Throw e, s2, t1 ++ t2)
        end
    | (Exit c, s1, t1) => (Exit c, s1, t1)
    | (OutOfFuel, s1, t1) => (OutOfFuel, s1, t1)
    end.

(** ** Collaborators *)

(** Modelled from the spec: [contractLoader.existsByAddressNetwork] of
    lib/contract-loader, which is not part of the sources at hand. The store
    holds at most one record per address and network; other writers may have
    added records since the last call. *)
Definition existsByAddressNetwork (address network : string) : M bool :=
  fun env s =>
    let st := store s ∪ other_writers env (clock s) in
    let found := bool_decide (is_Some (st !! (address, network))) in
    (Ok found, tick s st, [EvExists address network found]).

(** Modelled from the spec: [contractLoader.save] of lib/contract-loader.
    It answers whether the record was added; [false] means that a record
    with this address and network was already there, and the store is left
    as it is. *)
Definition save (c : Contract.t) : M bool :=
  fun env s =>
    let st := store s ∪ other_writers env (clock s) in
    let added := bool_decide (st !! Contract.key c = None) in
    (Ok added, tick s (if added then <[Contract.key c := c]> st else st),
     [EvSave c added]).

(** [blockchain.getTxInfo(network, txid)] of lib/blockchain; [None] is a
    rejection. *)
Definition getTxInfo (network txid : string) : M TxInfo.t :=
  fun env s =>
    let res := ledger env (clock s) network txid in
    (match res with Some i => Ok i | None => Throw LedgerError end,
     tick s (store s), [EvGetTxInfo network txid res]).

(** ** The script *)

(** [makeReq]: the request, then [assert.equal(res.status, 200)]. *)
Definition makeReq (url : request) (id : option string) : M string :=
  fun env s =>
    let res := http env (clock s) url in
    (match res with
     | NetworkError => Throw FetchError
     | Response status body =>
         if status =? 200 then Ok body
         else Throw (AssertionError StatusIs200)
     end, tick s (store s), [EvFetch url id res]).

(** [fetchText(url, id)]. With an [id] the request goes through the queue of
    that id, which runs one call at a time and pauses before each; the pause
    takes time and changes nothing else, so both branches are [makeReq]. The
    event keeps the id. *)
Definition fetchText (url : request) (id : option string) : M string :=
  match id with
  | None => makeReq url None
  | Some key => makeReq url (Some key)
  end.

(** One turn of the loop of [soljsonVersionsLoad]. *)
Definition soljsonVersions_line
    (soljsonVersions : gmap string string) (line : string)
  : gmap string string :=
  match JS.match_js_file line with
  | None => soljsonVersions
  | Some parsed1 =>
      let commit := JS.slice parsed1 0 6 in
      if match soljsonVersions !! commit with
         | Some v => (JS.truthy v && JS.includes "commit" v)%bool
         | None => false
         end
      then soljsonVersions
      else <[commit := JS.slice (JS.trim line) 9 (-3)]> soljsonVersions
  end.

(** The index built from the text of the manifest. *)
Definition soljsonVersions_of (text : string) : gmap string string :=
  fold_left soljsonVersions_line (JS.split "010" text) ∅.

Definition soljsonVersionsLoad : M (gmap string string) :=
  text <- fetchText Manifest None ;;
  ret (soljsonVersions_of text).

(** [onExistsUpdate]: [process.exit(0)] does not return. *)
Definition onExistsUpdate {A} : M A :=
  console_log info ExistedContractIsReached ;;;
  process_exit 0.

(** [a || b] on strings that may be [undefined] *)
Definition or_else (a b : option string) : option string :=
  match a with
  | Some v => if JS.truthy v then a else b
  | None => b
  end.

(** [object[key]] where the key itself may be [undefined], which is then
    the property name "undefined" *)
Definition property (object : gmap string string) (key : option string)
  : option string :=
  object !! default "undefined" key.

Definition fetchAddressEtherscan (address : string) : M Etherscan.t :=
  html <- fetchText (AddressPage address) (Some "etherscan") ;;
  env <- ask ;;
  let doc := cheerio_detail env html in
  let name := JS.trim (td_name doc) in
  let compiler := JS.trim (td_compiler doc) in
  let optimizationEnabled := String.eqb (JS.trim (td_optimization doc)) "Yes" in
  let optimizationRuns := parseInt10 (JS.trim (td_runs doc)) in
  let optimise :=
    if optimizationEnabled then optimizationRuns else JSBool false in
  let src := JS.trim (pre_editor doc) in
  let abi := JS.trim (pre_abi doc) in
  cargs <-
    match pre_cargs_html doc with
    | Some cargsHTML =>
        if JS.truthy cargsHTML then
          match JS.match_hex_tag cargsHTML with
          | Some match1 =>
              assert (Nat.even (String.length match1))
                     ConstructorArgumentsValid ;;;
              ret match1
          | None => throw (AssertionError ConstructorArgumentsValid)
          end
        else ret ""
    | None => ret ""
    end ;;
  let cargs :=
    default ""
      (or_else (or_else (Some cargs)
                        (etherscanConstructorArguments env !! address))
               (Some "")) in
  ret (Etherscan.mk name compiler optimise src abi cargs).

Definition fetchAddressBlockchair (address : string) : M Blockchair.t :=
  text <- fetchText (Calls address) (Some "blockchair") ;;
  env <- ask ;;
  result <- match JSON_parse env text with
            | Some result => ret result
            | None => throw SyntaxError
            end ;;
  assert (Nat.eqb (length (data result)) 1)
         (ExactlyOneRow (length (data result))) ;;;
  row <- match data result !! 0%nat with
         | Some row => ret row
         | None => throw TypeError
         end ;;
  let txid := transaction_hash row in
  txInfo <- getTxInfo "foundation" txid ;;
  assert (String.eqb (TxInfo.address txInfo) address) SameAddress ;;;
  ret (Blockchair.mk txid (TxInfo.bin txInfo)).

Module Options.
Record t : Type := mk {
  soljsonVersions : gmap string string;
  update : bool
}.
End Options.

Definition fetchAddress (address : string) (options : Options.t) : M unit :=
  let address := JS.toLowerCase address in
  exists_ <- existsByAddressNetwork address "foundation" ;;
  if exists_ : bool then
    (if Options.update options then onExistsUpdate else ret tt) ;;;
    console_log info (AlreadyExists address)
  else
    both <- Promise_all2 (fetchAddressEtherscan address)
                         (fetchAddressBlockchair address) ;;
    let etherscan := fst both in
    let blockchair := snd both in
    console_log info (LoadAddress address) ;;;
    compilerMark <-
      match JS.match_trailing_alnum (Etherscan.compiler etherscan) with
      | Some match1 => ret (JS.slice match1 0 6)
      | None => throw TypeError
      end ;;
    env <- ask ;;
    let soljsonVersions := Options.soljsonVersions options in
    let soljsonVersion :=
      or_else (soljsonVersions !! compilerMark)
              (property soljsonVersions (compilersMap env !! compilerMark)) in
    assert (JS.truthy (default "" soljsonVersion))
           (CompilerVersionDefined address) ;;;
    let contract :=
      Contract.mk
        {[ Etherscan.name etherscan +:+ ".sol" := Etherscan.src etherscan ]}
        (Etherscan.abi etherscan)
        (Blockchair.bin blockchair)
        (Info.mk (Etherscan.name etherscan)
                 (Etherscan.name etherscan +:+ ".sol")
                 (default "" soljsonVersion)
                 (Etherscan.optimise etherscan)
                 "foundation"
                 (Blockchair.txid blockchair)
                 address
                 (Etherscan.cargs etherscan)) in
    added <- save contract ;;
    (if (negb added && Options.update options)%bool
     then onExistsUpdate else ret tt) ;;;
    console_log success (Added address).

Definition fetchPage (page : Z) (options : Options.t) : M string :=
  html <- fetchText (ContractsVerified page) (Some "etherscan") ;;
  console_log info (LoadPage page) ;;;
  env <- ask ;;
  let doc := cheerio_listing env html in
  let addresses :=
    map (fun a => JS.toLowerCase (JS.trim a)) (anchors doc) in
  for_of addresses (fun address => fetchAddress address options) ;;;
  match JS.match_page_of (doc_text doc) with
  | Some match1 => ret match1
  | None => throw (AssertionError PageFooterFound)
  end.

(** The upper bound of [--pages]: a number or the word [latest]. *)
Inductive upper : Type :=
| latest
| upto (up : Z).

(** The loop of [fetchPages] has no bound of its own; [fuel] bounds the
    number of turns, and [OutOfFuel] is the answer when it runs out. The
    footer count is a string and is compared as a number. *)
Fixpoint fetchPages (fuel : nat) (page : Z) (up : upper) (options : Options.t)
  : M unit :=
  match fuel with
  | O => out_of_fuel
  | S fuel' =>
      total <- fetchPage page options ;;
      if page >=? match up with
                  | latest => JS.Number total
                  | upto up => up
                  end
      then ret tt
      else fetchPages fuel' (page + 1) up options
  end.

(** The parsed command line; the absent options are [None]. *)
Module Args.
Record t : Type := mk {
  address : option string;
  page : option Z;
  pages : option (Z * upper);
  update : bool
}.
End Args.

Definition main (fuel : nat) (args : Args.t) : M unit :=
  soljsonVersions <- soljsonVersionsLoad ;;
  let options := Options.mk soljsonVersions (Args.update args) in
  match Args.address args with
  | Some address =>
      if JS.truthy address then fetchAddress address options else ret tt
  | None => ret tt
  end ;;;
  match Args.page args with
  | Some page =>
      if page =? 0 then ret tt else (fetchPage page options ;;; ret tt)
  | None => ret tt
  end ;;;
  match Args.pages args with
  | Some (down, up) => fetchPages fuel down up options
  | None => ret tt
  end.

(** [main().catch(...)]: an error that reaches the top ends the process with
    status 1; [process.exit] ends it with the status it is given; when [main]
    returns the process ends with status 0. *)
Definition exit_status {A} (r : outcome A) : option Z :=
  match r with
  | Ok _ => Some 0
  | Throw _ => Some 1
  | Exit code => Some code
  | OutOfFuel => None
  end.

(** * Notions used to state the properties *)

(** The key a manifest line is filed under, if the line is a build file. *)
Definition fingerprint (line : string) : option string :=
  (fun parsed1 => JS.slice parsed1 0 6) <$> JS.match_js_file line.

(** The version string a manifest line stands for. *)
Definition version (line : string) : string :=
  JS.slice (JS.trim line) 9 (-3).

(** [halted r0 r]: the computation stopped with [r0] before it could return,
    and [r] is the same way of stopping at another type. *)
Definition halted {A B} (r0 : outcome A) (r : outcome B) : Prop :=
  match r0, r with
  | Throw e, Throw e' => e = e'
  | Exit c, Exit c' => c = c'
  | OutOfFuel, OutOfFuel => True
  | _, _ => False
  end.

(** The joined result of two branches that return or throw. *)
Definition joined {A B} (ra : outcome A) (rb : outcome B) : outcome (A * B) :=
  match ra, rb with
  | Ok a, Ok b => Ok (a, b)
  | Throw e, _ => Throw e
  | _, Throw e => Throw e
  | _, _ => OutOfFuel
  end.

Definition settles {A} (r : outcome A) : Prop :=
  match r with Ok _ | Throw _ => True | _ => False end.

(** The value of [cargs] for the run [c] taken from the page. *)
Definition cargs_or_override (env : Env) (address c : string) : string :=
  default ""
    (or_else (or_else (Some c) (etherscanConstructorArguments env !! address))
             (Some "")).

(** The record [fetchAddress] assembles. *)
Definition assemble (address : string) (etherscan : Etherscan.t)
    (blockchair : Blockchair.t) (soljsonVersion : string) : Contract.t :=
  Contract.mk
    {[ Etherscan.name etherscan +:+ ".sol" := Etherscan.src etherscan ]}
    (Etherscan.abi etherscan)
    (Blockchair.bin blockchair)
    (Info.mk (Etherscan.name etherscan)
             (Etherscan.name etherscan +:+ ".sol")
             soljsonVersion
             (Etherscan.optimise etherscan)
             "foundation"
             (Blockchair.txid blockchair)
             address
             (Etherscan.cargs etherscan)).

(** The version string found for a fingerprint: in the index, or in the
    index under the alias of the fingerprint. *)
Definition resolve (options : Options.t) (env : Env) (compilerMark : string)
  : option string :=
  or_else (Options.soljsonVersions options !! compilerMark)
          (property (Options.soljsonVersions options)
                    (compilersMap env !! compilerMark)).

(** What [fetchAddress] does once both sources have answered. *)
Definition reconciled (options : Options.t) (env : Env) (a : string)
    (e : Etherscan.t) (b : Blockchair.t) (sb : State)
    (r : outcome unit) (s' : State) (tail : list event) : Prop :=
  ∃ tail2, tail = EvLog info (LoadAddress a) :: tail2 ∧
  match JS.match_trailing_alnum (Etherscan.compiler e) with
  | None => tail2 = [] ∧ r = Throw TypeError
  | Some match1 =>
      let v := resolve options env (JS.slice match1 0 6) in
      if JS.truthy (default "" v) then
        let c := assemble a e b (default "" v) in
        let st := store sb ∪ other_writers env (S (clock sb)) in
        let added := bool_decide (st !! Contract.key c = None) in
        is_Some (store s' !! (a, "foundation"))
        ∧ if (negb added && Options.update options)%bool
          then r = Exit 0
               ∧ tail2 = [EvSave c added; EvLog info ExistedContractIsReached]
          else r = Ok tt
               ∧ tail2 = [EvSave c added; EvLog success (Added a)]
      else tail2 = [] ∧ r = Throw (AssertionError (CompilerVersionDefined a))
  end.

Definition manifest_sample : string :=
  "soljson-v0.4.0-nightly.2016.9.9+abc123de.js" +:+ String "010" (
  "soljson-v0.3.6+commit.3fc68da5.js" +:+ String "010" (
  "soljson-v0.4.0+commit.abc123de.js" +:+ String "010" (
  "soljson-latest.js" +:+ String "010" ""))).

(** ** Runs as relations *)

(** The constructor arguments read from the page: [None] when the page shows
    some that are not valid, the empty string when it shows none. *)
Definition page_cargs (doc : detailDoc) : option string :=
  match pre_cargs_html doc with
  | Some cargsHTML =>
      if JS.truthy cargsHTML then
        match JS.match_hex_tag cargsHTML with
        | Some match1 =>
            if Nat.even (String.length match1) then Some match1 else None
        | None => None
        end
      else Some ""
  | None => Some ""
  end.

(** The fields [fetchAddressEtherscan] returns for a page. *)
Definition page_fields (env : Env) (a : string) (doc : detailDoc)
    (c : string) : Etherscan.t :=
  Etherscan.mk
    (JS.trim (td_name doc)) (JS.trim (td_compiler doc))
    (if String.eqb (JS.trim (td_optimization doc)) "Yes"
     then parseInt10 (JS.trim (td_runs doc)) else JSBool false)
    (JS.trim (pre_editor doc)) (JS.trim (pre_abi doc))
    (cargs_or_override env a c).

(** The runs of [fetchAddressEtherscan] at clock [clk]. *)
Inductive etherscan_run (env : Env) (a : string) (clk : nat)
  : outcome Etherscan.t → list event → Prop :=
| es_unreachable :
    http env clk (AddressPage a) = NetworkError →
    etherscan_run env a clk (Throw FetchError)
      [EvFetch (AddressPage a) (Some "etherscan") NetworkError]
| es_status status body :
    http env clk (AddressPage a) = Response status body →
    status ≠ 200 →
    etherscan_run env a clk (Throw (AssertionError StatusIs200))
      [EvFetch (AddressPage a) (Some "etherscan") (Response status body)]
| es_invalid body :
    http env clk (AddressPage a) = Response 200 body →
    page_cargs (cheerio_detail env body) = None →
    etherscan_run env a clk (Throw (AssertionError ConstructorArgumentsValid))
      [EvFetch (AddressPage a) (Some "etherscan") (Response 200 body)]
| es_ok body c :
    http env clk (AddressPage a) = Response 200 body →
    page_cargs (cheerio_detail env body) = Some c →
    etherscan_run env a clk
      (Ok (page_fields env a (cheerio_detail env body) c))
      [EvFetch (AddressPage a) (Some "etherscan") (Response 200 body)].

(** The runs of [fetchAddressBlockchair] at clock [clk]. *)
Inductive blockchair_run (env : Env) (a : string) (clk : nat)
  : outcome Blockchair.t → list event → Prop :=
| bc_unreachable :
    http env clk (Calls a) = NetworkError →
    blockchair_run env a clk (Throw FetchError)
      [EvFetch (Calls a) (Some "blockchair") NetworkError]
| bc_status status body :
    http env clk (Calls a) = Response status body →
    status ≠ 200 →
    blockchair_run env a clk (Throw (AssertionError StatusIs200))
      [EvFetch (Calls a) (Some "blockchair") (Response status body)]
| bc_syntax body :
    http env clk (Calls a) = Response 200 body →
    JSON_parse env body = None →
    blockchair_run env a clk (Throw SyntaxError)
      [EvFetch (Calls a) (Some "blockchair") (Response 200 body)]
| bc_rows body result :
    http env clk (Calls a) = Response 200 body →
    JSON_parse env body = Some result →
    length (data result) ≠ 1%nat →
    blockchair_run env a clk
      (Throw (AssertionError (ExactlyOneRow (length (data result)))))
      [EvFetch (Calls a) (Some "blockchair") (Response 200 body)]
| bc_ledger body result row :
    http env clk (Calls a) = Response 200 body →
    JSON_parse env body = Some result →
    data result = [row] →
    ledger env (S clk) "foundation" (transaction_hash row) = None →
    blockchair_run env a clk (Throw LedgerError)
      [EvFetch (Calls a) (Some "blockchair") (Response 200 body);
       EvGetTxInfo "foundation" (transaction_hash row) None]
| bc_mismatch body result row i :
    http env clk (Calls a) = Response 200 body →
    JSON_parse env body = Some result →
    data result = [row] →
    ledger env (S clk) "foundation" (transaction_hash row) = Some i →
    TxInfo.address i ≠ a →
    blockchair_run env a clk (Throw (AssertionError SameAddress))
      [EvFetch (Calls a) (Some "blockchair") (Response 200 body);
       EvGetTxInfo "foundation" (transaction_hash row) (Some i)]
| bc_ok body result row i :
    http env clk (Calls a) = Response 200 body →
    JSON_parse env body = Some result →
    data result = [row] →
    ledger env (S clk) "foundation" (transaction_hash row) = Some i →
    TxInfo.address i = a →
    blockchair_run env a clk
      (Ok (Blockchair.mk (transaction_hash row) (TxInfo.bin i)))
      [EvFetch (Calls a) (Some "blockchair") (Response 200 body);
       EvGetTxInfo "foundation" (transaction_hash row) (Some i)].

(** The runs of [fetchAddress] for the lower-case address [a] from the
    state [s]: the address is there already; a source fails; the compiler
    string has no fingerprint; no version is known for the fingerprint; the
    record is handed to the store. *)
Inductive address_run (options : Options.t) (env : Env) (s : State)
    (a : string) : outcome unit → list event → Prop :=
| ar_exists :
    is_Some ((store s ∪ other_writers env (clock s)) !! (a, "foundation")) →
    address_run options env s a
      (if Options.update options then Exit 0 else Ok tt)
      [EvExists a "foundation" true;
       EvLog info (if Options.update options
                   then ExistedContractIsReached else AlreadyExists a)]
| ar_source_failed ra ta rb tb err :
    (store s ∪ other_writers env (clock s)) !! (a, "foundation") = None →
    etherscan_run env a (S (clock s)) ra ta →
    blockchair_run env a (S (S (clock s))) rb tb →
    joined ra rb = Throw err →
    address_run options env s a (Throw err)
      (EvExists a "foundation" false :: ta ++ tb)
| ar_no_fingerprint e ta b tb :
    (store s ∪ other_writers env (clock s)) !! (a, "foundation") = None →
    etherscan_run env a (S (clock s)) (Ok e) ta →
    blockchair_run env a (S (S (clock s))) (Ok b) tb →
    JS.match_trailing_alnum (Etherscan.compiler e) = None →
    address_run options env s a (Throw TypeError)
      (EvExists a "foundation" false :: ta ++ tb
         ++ [EvLog info (LoadAddress a)])
| ar_no_version e ta b tb match1 :
    (store s ∪ other_writers env (clock s)) !! (a, "foundation") = None →
    etherscan_run env a (S (clock s)) (Ok e) ta →
    blockchair_run env a (S (S (clock s))) (Ok b) tb →
    JS.match_trailing_alnum (Etherscan.compiler e) = Some match1 →
    JS.truthy (default "" (resolve options env (JS.slice match1 0 6))) = false →
    address_run options env s a
      (Throw (AssertionError (CompilerVersionDefined a)))
      (EvExists a "foundation" false :: ta ++ tb
         ++ [EvLog info (LoadAddress a)])
| ar_saved e ta b tb match1 added :
    (store s ∪ other_writers env (clock s)) !! (a, "foundation") = None →
    etherscan_run env a (S (clock s)) (Ok e) ta →
    blockchair_run env a (S (S (clock s))) (Ok b) tb →
    JS.match_trailing_alnum (Etherscan.compiler e) = Some match1 →
    JS.truthy (default "" (resolve options env (JS.slice match1 0 6))) = true →
    address_run options env s a
      (if (negb added && Options.update options)%bool then Exit 0 else Ok tt)
      (EvExists a "foundation" false :: ta ++ tb
         ++ [EvLog info (LoadAddress a);
             EvSave (assemble a e b
                       (default "" (resolve options env (JS.slice match1 0 6))))
                    added;
             if (negb added && Options.update options)%bool
             then EvLog info ExistedContractIsReached
             else EvLog success (Added a)]).

(** ** What a trace shows *)

(** Every character of [s] satisfies [p]. *)
Fixpoint all_chars (p : ascii → bool) (s : string) : bool :=
  match s with
  | EmptyString => true
  | String c s' => (p c && all_chars p s')%bool
  end.

(** The world with another alias table. *)
Definition with_compilersMap (env : Env) (aliases : gmap string string) : Env :=
  {| http := http env;
     cheerio_detail := cheerio_detail env;
     cheerio_listing := cheerio_listing env;
     JSON_parse := JSON_parse env;
     ledger := ledger env;
     other_writers := other_writers env;
     compilersMap := aliases;
     etherscanConstructorArguments := etherscanConstructorArguments env |}.

(** The records handed to [save] along a trace, in order. *)
Fixpoint saved (t : list event) : list Contract.t :=
  match t with
  | [] => []
  | EvSave c _ :: t' => c :: saved t'
  | _ :: t' => saved t'
  end.

(** The store answers that the address is already there: the check finds it,
    or [save] does not add the record. *)
Definition found_existing (ev : event) : bool :=
  match ev with
  | EvExists _ _ true => true
  | EvSave _ false => true
  | _ => false
  end.

(** A run stops at the first such answer: either there is none, or the
    trace ends with it and the line [onExistsUpdate] logs, and the process
    exits with status 0. *)
Definition stops_at_existing {A} (x : outcome A * State * list event) : Prop :=
  Forall (fun ev => found_existing ev = false) x.2
  ∨ ∃ pre ev,
      x.2 = pre ++ [ev; EvLog info ExistedContractIsReached]
      ∧ Forall (fun ev => found_existing ev = false) pre
      ∧ found_existing ev = true
      ∧ x.1.1 = Exit 0.

Definition stopping {A} (m : M A) : Prop :=
  ∀ env s, stops_at_existing (m env s).



(** ** The optimise field as a boolean *)

(** C8 as stated: the field of every saved record is the boolean "the flag
    is on and the run count is not zero". *)
Definition optimise_is_boolean : Prop :=
  ∀ a0 options env s r s' t x id status body c added,
    fetchAddress a0 options env s = (r, s', t) →
    In (EvFetch (AddressPage x) id (Response status body)) t →
    In (EvSave c added) t →
    Info.optimise (Contract.info c)
    = JSBool (String.eqb (JS.trim (td_optimization (cheerio_detail env body)))
                         "Yes"
              && jsval_truthy
                   (parseInt10 (JS.trim (td_runs (cheerio_detail env body))))).

(** ** A small world for the examples *)

(** A small world for the examples: every address page shows [doc], source B
    answers with [rows], the ledger attributes every transaction to [owner],
    and the listing page [p] shows [listing p]. *)
Definition sample_env (doc : detailDoc) (rows : list callsRow)
    (owner : string) (listing : Z -> listingDoc) : Env :=
  {| http := fun _ req =>
       match req with
       | Manifest => Response 200 manifest_sample
       | AddressPage a => Response 200 a
       | ContractsVerified p => Response 200 (pretty p)
       | Calls a => Response 200 a
       end;
     cheerio_detail := fun _ => doc;
     cheerio_listing := fun body => listing (JS.Number body);
     JSON_parse := fun _ => Some {| data := rows |};
     ledger := fun _ _ _ => Some (TxInfo.mk owner "6060");
     other_writers := fun _ => ∅;
     compilersMap := ∅;
     etherscanConstructorArguments := {[ "0xddd" := "aa01" ]} |}.

Definition sample_doc : detailDoc :=
  {| td_name := " Token ";
     td_compiler := "v0.4.0+commit.abc123de";
     td_optimization := "Yes";
     td_runs := "200";
     pre_editor := "contract Token {}";
     pre_abi := "[]";
     pre_cargs_html := Some "00ff<br>" |}.

Definition sample_options (update : bool) : Options.t :=
  Options.mk (soljsonVersions_of manifest_sample) update.

Definition empty_state : State := {| store := ∅; clock := 0 |}.

Definition no_listing (p : Z) : listingDoc :=
  {| anchors := []; doc_text := "" |}.

(** One row of source B, for the transaction 0x01. *)
Definition one_row : list callsRow := [ {| transaction_hash := "0x01" |} ].

(** The world in which 0xbbb is a verified contract created by 0x01. *)
Definition world_bbb : Env := sample_env sample_doc one_row "0xbbb" no_listing.

(** The run of [fetchAddress] on 0xBBB in that world, the store empty. *)
Definition run_bbb : outcome unit * State * list event :=
  fetchAddress "0xBBB" (sample_options false) world_bbb empty_state.

(** The record of 0xbbb in that world. *)
Definition record_bbb : Contract.t :=
  assemble "0xbbb" (page_fields world_bbb "0xbbb" sample_doc "00ff")
    (Blockchair.mk "0x01" "6060") "0.4.0+commit.abc123de".

(** The same with a ledger that attributes the transaction to 0xccc. *)
Definition run_mismatch : outcome unit * State * list event :=
  fetchAddress "0xBBB" (sample_options false)
    (sample_env sample_doc one_row "0xccc" no_listing) empty_state.

(** The same with no row from source B. *)
Definition run_no_row : outcome unit * State * list event :=
  fetchAddress "0xBBB" (sample_options false)
    (sample_env sample_doc [] "0xbbb" no_listing) empty_state.

(** A page whose compiler string ends with a capital letter. *)
Definition doc_capital : detailDoc :=
  {| td_name := "Token";
     td_compiler := "v0.4.0+commit.ABC123DE";
     td_optimization := "No";
     td_runs := "0";
     pre_editor := "contract Token {}";
     pre_abi := "[]";
     pre_cargs_html := None |}.

Definition run_capital : outcome unit * State * list event :=
  fetchAddress "0xBBB" (sample_options false)
    (sample_env doc_capital one_row "0xbbb" no_listing) empty_state.




(** A listing page with five addresses, the second of which is stored. *)
Definition five_addresses (p : Z) : listingDoc :=
  {| anchors := [" 0xBBB "; "0xAAA"; "0xC1"; "0xC2"; "0xC3"];
     doc_text := "Page 1 of 9" |}.

Definition world_update : Env :=
  {| http := http world_bbb;
     cheerio_detail := cheerio_detail world_bbb;
     cheerio_listing := fun _ => five_addresses 1;
     JSON_parse := JSON_parse world_bbb;
     ledger := ledger world_bbb;
     other_writers := fun _ =>
       {[ ("0xaaa", "foundation") :=
            assemble "0xaaa" (page_fields world_bbb "0xaaa" sample_doc "")
              (Blockchair.mk "0x02" "6060") "0.4.0+commit.abc123de" ]};
     compilersMap := ∅;
     etherscanConstructorArguments := ∅ |}.

Definition run_update : outcome unit * State * list event :=
  main 5 (Args.mk None None (Some (1, latest)) true) world_update empty_state.

(** A world in which another writer adds the record of 0xbbb after the
    existence check and before the call to [save]. *)
Definition world_race : Env :=
  {| http := http world_bbb;
     cheerio_detail := cheerio_detail world_bbb;
     cheerio_listing := cheerio_listing world_bbb;
     JSON_parse := JSON_parse world_bbb;
     ledger := ledger world_bbb;
     other_writers := fun clk =>
       if Nat.leb 3 clk then {[ ("0xbbb", "foundation") := record_bbb ]}
       else ∅;
     compilersMap := ∅;
     etherscanConstructorArguments := ∅ |}.

(** A page that shows no constructor arguments. *)
Definition doc_plain : detailDoc :=
  {| td_name := "Token";
     td_compiler := "v0.4.0+commit.abc123de";
     td_optimization := "No";
     td_runs := "200";
     pre_editor := "contract Token {}";
     pre_abi := "[]";
     pre_cargs_html := None |}.

(** * Notions for the rest of the script *)

(** ** The command line *)

(** What [coerce] of the option [pages] gives: the range, or the
    [RangeError] it throws with the argument in its message. *)
Inductive pagesArg : Type :=
| InvalidPages (arg : string)
| Pages (down : Z) (up : upper).

(** Groups 1 and 2 of [arg.match(/^(\d+)\.\.(\d+|latest)$/)]. The first run
    of digits is followed by a dot, so only the longest run can match. *)
Definition match_pages (arg : string) : option (string * string) :=
  let (match1, rest) := JS.span JS.is_digit arg in
  match rest with
  | String "." (String "." match2) =>
      if (JS.truthy match1
          && (String.eqb match2 "latest"
              || (JS.truthy match2 && all_chars JS.is_digit match2)))%bool
      then Some (match1, match2) else None
  | _ => None
  end.

(** [coerce] of the option [pages] in [getArgs]. Both groups that reach
    [parseInt(m, 10)] are runs of digits, and [parseInt] of a run of digits
    is the number the digits write (lemma [parseInt10_digits]). *)
Definition coerce (arg : string) : pagesArg :=
  match match_pages arg with
  | None => InvalidPages arg
  | Some (match1, match2) =>
      let down := JS.Number match1 in
      if String.eqb match2 "latest" then Pages down latest
      else
        let up := JS.Number match2 in
        if down >? up then InvalidPages arg else Pages down (upto up)
  end.

(** A non-empty run of decimal digits. *)
Definition digits (s : string) : Prop :=
  JS.truthy s = true ∧ all_chars JS.is_digit s = true.

(** ** What every run keeps *)

(** The four ways a computation ends. *)
Inductive ending : Type := returns | throws | exits (code : Z) | runs_out.

Definition ending_of {A} (r : outcome A) : ending :=
  match r with
  | Ok _ => returns
  | Throw _ => throws
  | Exit code => exits code
  | OutOfFuel => runs_out
  end.

(** Every event of every run of [m] satisfies [P], and every run of [m]
    ends in a way that satisfies [K]. *)
Definition respects (P : event → Prop) (K : ending → Prop) {A} (m : M A)
  : Prop :=
  ∀ env s, Forall P (m env s).2 ∧ K (ending_of (m env s).1.1).

(** The events an ingestion can emit: requests to the listing site go
    through the queue "etherscan", requests to source B through the queue
    "blockchair", and the manifest is not requested; the store and the ledger
    are asked about the network "foundation" only; the line of
    [onExistsUpdate] needs update mode and the line "Already exists" needs
    its absence. *)
Inductive ingest_event (update : bool) : event → Prop :=
| se_address a res :
    ingest_event update (EvFetch (AddressPage a) (Some "etherscan") res)
| se_listing page res :
    ingest_event update (EvFetch (ContractsVerified page) (Some "etherscan") res)
| se_calls a res :
    ingest_event update (EvFetch (Calls a) (Some "blockchair") res)
| se_exists a found :
    JS.toLowerCase a = a →
    ingest_event update (EvExists a "foundation" found)
| se_lookup txid res :
    ingest_event update (EvGetTxInfo "foundation" txid res)
| se_save c added :
    Info.network (Contract.info c) = "foundation" →
    JS.toLowerCase (Info.address (Contract.info c))
    = Info.address (Contract.info c) →
    ingest_event update (EvSave c added)
| se_existed :
    update = true → ingest_event update (EvLog info ExistedContractIsReached)
| se_already a :
    update = false → ingest_event update (EvLog info (AlreadyExists a))
| se_load_address a : ingest_event update (EvLog info (LoadAddress a))
| se_added a : ingest_event update (EvLog success (Added a))
| se_load_page page : ingest_event update (EvLog info (LoadPage page)).

(** How an ingestion ends: never by running out, and by [process.exit] only
    in update mode. *)
Definition settled (update : bool) (k : ending) : Prop :=
  k ≠ runs_out ∧ ∀ code, k = exits code → update = true ∧ code = 0.

(** How a crawl ends: by [process.exit] only in update mode. *)
Definition exits_on_update (update : bool) (k : ending) : Prop :=
  ∀ code, k = exits code → update = true ∧ code = 0.

(** ** Queues, networks and exits *)

(** What [main] does once the index is loaded: the three options in turn. *)
Definition main_after_load (fuel : nat) (args : Args.t) (options : Options.t)
  : M unit :=
  match Args.address args with
  | Some address =>
      if JS.truthy address then fetchAddress address options else ret tt
  | None => ret tt
  end ;;;
  match Args.page args with
  | Some page =>
      if page =? 0 then ret tt else (fetchPage page options ;;; ret tt)
  | None => ret tt
  end ;;;
  match Args.pages args with
  | Some (down, up) => fetchPages fuel down up options
  | None => ret tt
  end.

(** The queue [fetchText] is given for a request: none for the manifest, one
    per site for the rest. *)
Definition throttle_key (req : request) : option string :=
  match req with
  | Manifest => None
  | AddressPage _ | ContractsVerified _ => Some "etherscan"
  | Calls _ => Some "blockchair"
  end.

(** The addresses the store is asked about along a trace, in order. *)
Fixpoint checked (t : list event) : list string :=
  match t with
  | [] => []
  | EvExists a _ _ :: t' => a :: checked t'
  | _ :: t' => checked t'
  end.

(** ** More runs for the examples *)

(** The command line [--pages 1..latest --update]. *)
Definition args_update : Args.t :=
  Args.mk None None (Some (1, latest)) true.


(** The page of five addresses without update mode: the first address is
    ingested, the second is stored already, and the ledger attributes the
    transaction of the third to another address. *)
Definition run_listing : outcome string * State * list event :=
  fetchPage 1 (sample_options false) world_update empty_state.

(** The run on 0xBBB with an empty index. *)
Definition run_unknown : outcome unit * State * list event :=
  fetchAddress "0xBBB" (Options.mk ∅ false) world_bbb empty_state.

(** * Properties *)

(** ** The string functions on examples *)

Example split_lines :
  JS.split "010" ("ab" +:+ String "010" ("" +:+ String "010" "c"))
  = ["ab"; ""; "c"].
Proof. reflexivity. Qed.

Example match_js_file_ex :
  JS.match_js_file "soljson-v0.4.11+commit.68ef5810.js" = Some "68ef5810"
  /\ JS.match_js_file "soljson-latest.js" = Some "latest"
  /\ JS.match_js_file "soljson-v0.4.11+commit.68ef5810.JS" = None
  /\ JS.match_js_file ".js" = None.
Proof. repeat split; reflexivity. Qed.

Example match_page_of_ex :
  JS.match_page_of "First Page 12 of 3400 Next" = Some "3400"
  /\ JS.match_page_of "Page of 3 Page 1 of 7x" = Some "7"
  /\ JS.match_page_of "Page 1 of" = None.
Proof. repeat split; reflexivity. Qed.

Example slice_ex :
  JS.slice "soljson-v0.4.11+commit.68ef5810.js" 9 (-3) = "0.4.11+commit.68ef5810"
  /\ JS.slice "68ef5810" 0 6 = "68ef58"
  /\ JS.slice "ab.js" 9 (-3) = ""
  /\ JS.slice "abc" 0 6 = "abc".
Proof. repeat split; reflexivity. Qed.

Example parseInt10_ex :
  parseInt10 "200" = JSNumber 200 /\ parseInt10 " -7x" = JSNumber (-7)
  /\ parseInt10 "" = JSNaN /\ parseInt10 "runs" = JSNaN.
Proof. repeat split; reflexivity. Qed.

(** ** The compiler-version index *)

Section Index.
Variable f : string.

Lemma soljsonVersions_line_other acc line :
  fingerprint line ≠ Some f →
  soljsonVersions_line acc line !! f = acc !! f.
Proof.
  unfold fingerprint, soljsonVersions_line.
  destruct (JS.match_js_file line) as [p|]; simpl; [|done].
  intros Hne. case_match; [done|].
  apply lookup_insert_ne. congruence.
Qed.

Lemma soljsonVersions_line_same acc line :
  fingerprint line = Some f →
  soljsonVersions_line acc line !! f =
    match acc !! f with
    | Some v => if JS.includes "commit" v then Some v
                else Some (version line)
    | None => Some (version line)
    end.
Proof.
  unfold fingerprint, soljsonVersions_line, version.
  destruct (JS.match_js_file line) as [p|]; simpl; [|done].
  intros [= Hf]. rewrite Hf.
  destruct (acc !! f) as [v|] eqn:Hv.
  - destruct v as [|c v]; simpl.
    + by rewrite lookup_insert_eq.
    + case_match; [by rewrite Hv | by rewrite lookup_insert_eq].
  - by rewrite lookup_insert_eq.
Qed.

(** Only the lines filed under [f], and the entry of [f], decide the
    entry of [f]. *)
Lemma soljsonVersions_fold_filter lines acc acc' :
  acc !! f = acc' !! f →
  fold_left soljsonVersions_line lines acc !! f
  = fold_left soljsonVersions_line
      (filter (fun l => fingerprint l = Some f) lines) acc' !! f.
Proof.
  revert acc acc'. induction lines as [|l lines IH]; intros acc acc' Heq.
  - done.
  - rewrite filter_cons. simpl. case_decide as Hl.
    + simpl. apply IH. by rewrite !soljsonVersions_line_same, Heq.
    + apply IH. by rewrite soljsonVersions_line_other.
Qed.

(** Once the entry of [f] contains "commit", no later line changes it. *)
Lemma soljsonVersions_fold_kept lines acc v :
  acc !! f = Some v → JS.includes "commit" v = true →
  fold_left soljsonVersions_line lines acc !! f = Some v.
Proof.
  revert acc. induction lines as [|l lines IH]; intros acc Hv Hc; [done|].
  simpl. apply IH; [|done].
  destruct (decide (fingerprint l = Some f)) as [Hl|Hl].
  - by rewrite soljsonVersions_line_same, Hv, Hc.
  - by rewrite soljsonVersions_line_other.
Qed.

(** Lines without "commit" leave the entry of [f] without "commit". *)
Lemma soljsonVersions_fold_plain lines acc :
  Forall (fun l => fingerprint l = Some f →
                   JS.includes "commit" (version l) = false) lines →
  match acc !! f with
  | Some v => JS.includes "commit" v = false
  | None => True
  end →
  match fold_left soljsonVersions_line lines acc !! f with
  | Some v => JS.includes "commit" v = false
  | None => True
  end.
Proof.
  intros Hlines. revert acc.
  induction Hlines as [|l lines Hl _ IH]; intros acc Hacc; [done|].
  simpl. apply IH.
  destruct (decide (fingerprint l = Some f)) as [Hf|Hf].
  - rewrite soljsonVersions_line_same by done.
    destruct (acc !! f) as [v|]; [rewrite Hacc|]; auto.
  - by rewrite soljsonVersions_line_other.
Qed.

(** The first line filed under [f] with a version string containing "commit"
    gives the entry of [f], whatever comes before and after it. *)
Lemma soljsonVersions_first_commit pre l post :
  fingerprint l = Some f →
  JS.includes "commit" (version l) = true →
  Forall (fun l' => fingerprint l' = Some f →
                    JS.includes "commit" (version l') = false) pre →
  fold_left soljsonVersions_line (pre ++ l :: post) ∅ !! f
  = Some (version l).
Proof.
  intros Hl Hc Hpre. rewrite fold_left_app. simpl.
  apply soljsonVersions_fold_kept; [|done].
  rewrite soljsonVersions_line_same by done.
  pose proof (soljsonVersions_fold_plain pre ∅ Hpre) as Hentry.
  rewrite lookup_empty in Hentry. specialize (Hentry I).
  destruct (fold_left soljsonVersions_line pre ∅ !! f) as [v|]; [|done].
  by rewrite Hentry.
Qed.
End Index.

(** C1. Fingerprint dedup. When exactly two lines of the manifest are filed
    under a fingerprint, one with a version string containing "commit" and
    one without, the index maps the fingerprint to the version string with
    "commit", whichever of the two lines comes first. *)
Theorem soljsonVersions_commit_wins (text f l1 l2 : string) :
  fingerprint l1 = Some f →
  fingerprint l2 = Some f →
  JS.includes "commit" (version l1) = true →
  JS.includes "commit" (version l2) = false →
  filter (fun l => fingerprint l = Some f) (JS.split "010" text) = [l1; l2]
  ∨ filter (fun l => fingerprint l = Some f) (JS.split "010" text) = [l2; l1] →
  soljsonVersions_of text !! f = Some (version l1).
Proof.
  intros Hf1 Hf2 Hc1 Hc2 Hlines. unfold soljsonVersions_of.
  rewrite (soljsonVersions_fold_filter f _ ∅ ∅) by done.
  destruct Hlines as [-> | ->]; simpl;
    rewrite !soljsonVersions_line_same, lookup_empty by done.
  - by rewrite Hc1.
  - by rewrite Hc2.
Qed.

Lemma soljsonVersions_commit_wins_witness :
  soljsonVersions_of manifest_sample !! "abc123" = Some "0.4.0+commit.abc123de".
Proof.
  apply (soljsonVersions_commit_wins manifest_sample "abc123"
           "soljson-v0.4.0+commit.abc123de.js"
           "soljson-v0.4.0-nightly.2016.9.9+abc123de.js").
  - reflexivity.
  - reflexivity.
  - reflexivity.
  - reflexivity.
  - right. vm_compute. reflexivity.
Defined.

(** ** Running a computation, step by step *)

Lemma bind_inv {A B} (m : M A) (f : A → M B) env s r s' t :
  bind m f env s = (r, s', t) →
  (∃ a s1 t1 t2,
      m env s = (Ok a, s1, t1) ∧ f a env s1 = (r, s', t2) ∧ t = t1 ++ t2)
  ∨ (∃ r0, m env s = (r0, s', t) ∧ halted r0 r).
Proof.
  unfold bind. destruct (m env s) as [[[a|e|c|] s1] t1] eqn:Hm; simpl.
  - destruct (f a env s1) as [[r2 s2] t2] eqn:Hf. intros ?; simplify_eq.
    left. by exists a, s1, t1, t2.
  - intros ?; simplify_eq. right. by eexists.
  - intros ?; simplify_eq. right. by eexists.
  - intros ?; simplify_eq. right. by eexists.
Qed.

Lemma bind_ask {B} (f : Env → M B) env s : bind ask f env s = f env env s.
Proof. unfold bind, ask. by destruct (f env env s) as [[r s2] t2]. Qed.

Lemma bind_ret {A B} (a : A) (f : A → M B) env s :
  bind (ret a) f env s = f a env s.
Proof. unfold bind, ret. by destruct (f a env s) as [[r s2] t2]. Qed.

Lemma bind_throw {A B} e (f : A → M B) env s :
  bind (throw e) f env s = (Throw e, s, []).
Proof. done. Qed.

Lemma bind_assert {B} cond site (f : unit → M B) env s :
  bind (assert cond site) f env s
  = if cond then f tt env s else (Throw (AssertionError site), s, []).
Proof. destruct cond; [apply bind_ret | done]. Qed.

Lemma bind_console_log {B} sym msg (f : unit → M B) env s r s' t :
  bind (console_log sym msg) f env s = (r, s', t) →
  ∃ t2, f tt env (tick s (store s)) = (r, s', t2) ∧ t = EvLog sym msg :: t2.
Proof.
  unfold bind, console_log.
  destruct (f tt env (tick s (store s))) as [[r2 s2] t2].
  intros ?; simplify_eq. by eexists.
Qed.

Lemma bind_getTxInfo {B} network txid (f : TxInfo.t → M B) env s r s' t :
  bind (getTxInfo network txid) f env s = (r, s', t) →
  match ledger env (clock s) network txid with
  | Some i =>
      ∃ t2, f i env (tick s (store s)) = (r, s', t2)
            ∧ t = EvGetTxInfo network txid (Some i) :: t2
  | None =>
      r = Throw LedgerError ∧ s' = tick s (store s)
      ∧ t = [EvGetTxInfo network txid None]
  end.
Proof.
  unfold bind, getTxInfo.
  destruct (ledger env (clock s) network txid) as [i|].
  - destruct (f i env (tick s (store s))) as [[r2 s2] t2].
    intros ?; simplify_eq. by eexists.
  - by intros ?; simplify_eq.
Qed.

Lemma bind_fetchText {B} url id (f : string → M B) env s r s' t :
  bind (fetchText url id) f env s = (r, s', t) →
  match http env (clock s) url with
  | Response status body =>
      if status =? 200 then
        ∃ t2, f body env (tick s (store s)) = (r, s', t2)
              ∧ t = EvFetch url id (Response status body) :: t2
      else r = Throw (AssertionError StatusIs200) ∧ s' = tick s (store s)
           ∧ t = [EvFetch url id (Response status body)]
  | NetworkError =>
      r = Throw FetchError ∧ s' = tick s (store s)
      ∧ t = [EvFetch url id NetworkError]
  end.
Proof.
  intros H. assert (bind (makeReq url id) f env s = (r, s', t)) as H'
    by (by destruct id).
  clear H. revert H'. unfold bind, makeReq.
  destruct (http env (clock s) url) as [|status body].
  - by intros ?; simplify_eq.
  - destruct (status =? 200).
    + destruct (f body env (tick s (store s))) as [[r2 s2] t2].
      intros ?; simplify_eq. by eexists.
    + by intros ?; simplify_eq.
Qed.

(** What a run of [fetchAddressBlockchair] looks like: one request, and a
    ledger lookup when the answer has exactly one row. *)
Lemma fetchAddressBlockchair_inv a env s r s' t :
  fetchAddressBlockchair a env s = (r, s', t) →
  store s' = store s ∧
  ((clock s' = S (clock s)
    ∧ t = [EvFetch (Calls a) (Some "blockchair") (http env (clock s) (Calls a))]
    ∧ match http env (clock s) (Calls a) with
      | NetworkError => r = Throw FetchError
      | Response status body =>
          if status =? 200 then
            match JSON_parse env body with
            | None => r = Throw SyntaxError
            | Some result =>
                length (data result) ≠ 1%nat
                ∧ r = Throw (AssertionError
                               (ExactlyOneRow (length (data result))))
            end
          else r = Throw (AssertionError StatusIs200)
      end)
   ∨ (∃ body result row,
        http env (clock s) (Calls a) = Response 200 body
        ∧ JSON_parse env body = Some result
        ∧ data result = [row]
        ∧ clock s' = S (S (clock s))
        ∧ t = [EvFetch (Calls a) (Some "blockchair") (Response 200 body);
               EvGetTxInfo "foundation" (transaction_hash row)
                 (ledger env (S (clock s)) "foundation" (transaction_hash row))]
        ∧ match ledger env (S (clock s)) "foundation" (transaction_hash row) with
          | None => r = Throw LedgerError
          | Some i =>
              if String.eqb (TxInfo.address i) a
              then r = Ok (Blockchair.mk (transaction_hash row) (TxInfo.bin i))
              else r = Throw (AssertionError SameAddress)
          end)).
Proof.
  unfold fetchAddressBlockchair. intros H.
  apply bind_fetchText in H.
  destruct (http env (clock s) (Calls a)) as [|status body] eqn:Hhttp.
  { destruct H as (-> & -> & ->). split; [done|]. by left. }
  destruct (status =? 200) eqn:Hstatus.
  2:{ destruct H as (-> & -> & ->). split; [done|]. by left. }
  destruct H as (t2 & H & ->). rewrite bind_ask in H.
  destruct (JSON_parse env body) as [result|] eqn:Hparse.
  2:{ rewrite bind_throw in H. simplify_eq. split; [done|]. by left. }
  rewrite bind_ret, bind_assert in H.
  destruct (Nat.eqb (length (data result)) 1) eqn:Hlen.
  2:{ simplify_eq. split; [done|]. left. by apply Nat.eqb_neq in Hlen. }
  apply Nat.eqb_eq in Hlen.
  destruct (data result) as [|row [|? ?]] eqn:Hdata; simplify_eq/=.
  rewrite bind_ret in H. apply bind_getTxInfo in H. simpl in H.
  apply Z.eqb_eq in Hstatus as ->.
  destruct (ledger env (S (clock s)) "foundation" (transaction_hash row))
    as [i|] eqn:Hledger.
  - destruct H as (t3 & H & ->). rewrite bind_assert in H.
    destruct (String.eqb (TxInfo.address i) a) eqn:Haddr.
    + unfold ret in H. simplify_eq. split; [done|]. right.
      exists body, result, row. by rewrite Hledger, Haddr.
    + simplify_eq. split; [done|]. right.
      exists body, result, row. by rewrite Hledger, Haddr.
  - destruct H as (-> & -> & ->). split; [done|]. right.
    exists body, result, row. by rewrite Hledger.
Qed.

Lemma bind_exists {B} address network (f : bool → M B) env s r s' t :
  bind (existsByAddressNetwork address network) f env s = (r, s', t) →
  let st := store s ∪ other_writers env (clock s) in
  let found := bool_decide (is_Some (st !! (address, network))) in
  ∃ t2, f found env (tick s st) = (r, s', t2)
        ∧ t = EvExists address network found :: t2.
Proof.
  unfold bind, existsByAddressNetwork. simpl.
  destruct (f _ env _) as [[r2 s2] t2].
  intros ?; simplify_eq. by eexists.
Qed.

Lemma bind_save {B} c (f : bool → M B) env s r s' t :
  bind (save c) f env s = (r, s', t) →
  let st := store s ∪ other_writers env (clock s) in
  let added := bool_decide (st !! Contract.key c = None) in
  ∃ t2, f added env (tick s (if added then <[Contract.key c := c]> st else st))
        = (r, s', t2)
        ∧ t = EvSave c added :: t2.
Proof.
  unfold bind, save. simpl.
  destruct (f _ env _) as [[r2 s2] t2].
  intros ?; simplify_eq. by eexists.
Qed.

Lemma console_log_inv sym msg env s r s' t :
  console_log sym msg env s = (r, s', t) →
  r = Ok tt ∧ s' = tick s (store s) ∧ t = [EvLog sym msg].
Proof. unfold console_log. by intros ?; simplify_eq. Qed.

Lemma bind_onExistsUpdate {A B} (f : A → M B) env s r s' t :
  bind onExistsUpdate f env s = (r, s', t) →
  r = Exit 0 ∧ s' = tick s (store s)
  ∧ t = [EvLog info ExistedContractIsReached].
Proof. unfold onExistsUpdate, bind, console_log, process_exit. simpl.
  by intros ?; simplify_eq. Qed.

Lemma Promise_all2_inv {A B} (ma : M A) (mb : M B) env s r s' t :
  Promise_all2 ma mb env s = (r, s', t) →
  (∀ ra sa ta, ma env s = (ra, sa, ta) → settles ra) →
  (∀ s0 rb sb tb, mb env s0 = (rb, sb, tb) → settles rb) →
  ∃ ra sa ta rb tb,
    ma env s = (ra, sa, ta) ∧ mb env sa = (rb, s', tb)
    ∧ t = ta ++ tb ∧ r = joined ra rb.
Proof.
  unfold Promise_all2. intros H Ha Hb.
  destruct (ma env s) as [[ra sa] ta] eqn:Hma.
  specialize (Ha _ _ _ eq_refl).
  destruct ra as [a|e| |]; try done;
    destruct (mb env sa) as [[rb sb] tb] eqn:Hmb;
    specialize (Hb _ _ _ _ Hmb);
    destruct rb as [b|e'| |]; try done; simplify_eq;
    by repeat eexists.
Qed.

(** What a run of [fetchAddressEtherscan] looks like: one request, then the
    fields read from the page. *)
Lemma fetchAddressEtherscan_inv a env s r s' t :
  fetchAddressEtherscan a env s = (r, s', t) →
  s' = tick s (store s)
  ∧ t = [EvFetch (AddressPage a) (Some "etherscan")
           (http env (clock s) (AddressPage a))]
  ∧ match http env (clock s) (AddressPage a) with
    | NetworkError => r = Throw FetchError
    | Response status body =>
        if status =? 200 then
          let doc := cheerio_detail env body in
          let fields c :=
            Etherscan.mk
              (JS.trim (td_name doc)) (JS.trim (td_compiler doc))
              (if String.eqb (JS.trim (td_optimization doc)) "Yes"
               then parseInt10 (JS.trim (td_runs doc)) else JSBool false)
              (JS.trim (pre_editor doc)) (JS.trim (pre_abi doc))
              (cargs_or_override env a c) in
          match pre_cargs_html doc with
          | Some cargsHTML =>
              if JS.truthy cargsHTML then
                match JS.match_hex_tag cargsHTML with
                | Some match1 =>
                    if Nat.even (String.length match1)
                    then r = Ok (fields match1)
                    else r = Throw (AssertionError ConstructorArgumentsValid)
                | None => r = Throw (AssertionError ConstructorArgumentsValid)
                end
              else r = Ok (fields "")
          | None => r = Ok (fields "")
          end
        else r = Throw (AssertionError StatusIs200)
    end.
Proof.
  unfold fetchAddressEtherscan. intros H.
  apply bind_fetchText in H.
  destruct (http env (clock s) (AddressPage a)) as [|status body].
  { by destruct H as (-> & -> & ->). }
  destruct (status =? 200) eqn:Hstatus.
  2:{ by destruct H as (-> & -> & ->). }
  apply Z.eqb_eq in Hstatus as ->.
  destruct H as (t2 & H & ->). rewrite bind_ask in H. cbv zeta in H.
  destruct (pre_cargs_html (cheerio_detail env body)) as [h|].
  - destruct (JS.truthy h).
    + destruct (JS.match_hex_tag h) as [m1|].
      * destruct (Nat.even (String.length m1));
          cbv [bind assert ret throw] in H; by simplify_eq.
      * rewrite bind_throw in H. by simplify_eq.
    + rewrite bind_ret in H. unfold ret in H. by simplify_eq.
  - rewrite bind_ret in H. unfold ret in H. by simplify_eq.
Qed.

Lemma fetchAddressEtherscan_settles a env s r s' t :
  fetchAddressEtherscan a env s = (r, s', t) → settles r.
Proof.
  intros (_ & _ & H)%fetchAddressEtherscan_inv. cbv zeta in H.
  repeat case_match; by subst.
Qed.

Lemma fetchAddressBlockchair_settles a env s r s' t :
  fetchAddressBlockchair a env s = (r, s', t) → settles r.
Proof.
  intros (_ & [(_ & _ & H) | (? & ? & ? & _ & _ & _ & _ & _ & H)])%fetchAddressBlockchair_inv;
  repeat case_match; destruct_and?; by subst.
Qed.

Lemma fetchAddress_inv a0 options env s r s' t :
  fetchAddress a0 options env s = (r, s', t) →
  let a := JS.toLowerCase a0 in
  let st := store s ∪ other_writers env (clock s) in
  (is_Some (st !! (a, "foundation"))
   ∧ store s' = st
   ∧ if Options.update options
     then r = Exit 0
          ∧ t = [EvExists a "foundation" true;
                 EvLog info ExistedContractIsReached]
     else r = Ok tt
          ∧ t = [EvExists a "foundation" true; EvLog info (AlreadyExists a)])
  ∨ (st !! (a, "foundation") = None
     ∧ ∃ ra sa ta rb sb tb tail,
         fetchAddressEtherscan a env (tick s st) = (ra, sa, ta)
         ∧ fetchAddressBlockchair a env sa = (rb, sb, tb)
         ∧ t = EvExists a "foundation" false :: ta ++ tb ++ tail
         ∧ match ra, rb with
           | Ok e, Ok b => reconciled options env a e b sb r s' tail
           | _, _ => tail = [] ∧ ∃ err, joined ra rb = Throw err ∧ r = Throw err
           end).
Proof.
  intros H a st. unfold fetchAddress in H. fold a in H.
  apply bind_exists in H. cbv zeta in H. fold st in H.
  destruct H as (t2 & H & ->).
  destruct (st !! (a, "foundation")) as [c0|] eqn:Hst.
  - rewrite bool_decide_eq_true_2 in * by eauto.
    left. split; [eauto|].
    destruct (Options.update options).
    + by apply bind_onExistsUpdate in H as (-> & -> & ->).
    + rewrite bind_ret in H. by apply console_log_inv in H as (-> & -> & ->).
  - rewrite bool_decide_eq_false_2 in * by (by intros [? ?]).
    right. split; [done|].
    apply bind_inv in H as [(both & s1 & t1 & t3 & Hall & H & ->)
                           | (r0 & Hall & Hh)].
    + apply Promise_all2_inv in Hall
        as (ra & sa & ta & rb & tb & Ha & Hb & -> & Hj);
        [| by eauto using fetchAddressEtherscan_settles
         | by eauto using fetchAddressBlockchair_settles].
      exists ra, sa, ta, rb, s1, tb, t3.
      split; [done|]. split; [done|]. split; [by rewrite <- app_assoc|].
      destruct ra as [e| | |], rb as [b| | |]; simplify_eq/=.
      apply bind_console_log in H as (tail2 & H & ->).
      exists tail2. split; [done|].
      destruct (JS.match_trailing_alnum (Etherscan.compiler e)) as [m1|].
      2:{ rewrite bind_throw in H. by simplify_eq. }
      rewrite bind_ret, bind_ask, bind_assert in H. cbv zeta in H.
      fold (resolve options env (JS.slice m1 0 6)) in H. cbv zeta.
      destruct (JS.truthy (default "" (resolve options env (JS.slice m1 0 6)))).
      2:{ by simplify_eq. }
      apply bind_save in H as (t4 & H & ->). simpl in H.
      fold (assemble a e b (default "" (resolve options env (JS.slice m1 0 6))))
        in *.
      set (c := assemble a e b _) in *. simpl.
      set (st2 := store s1 ∪ other_writers env (S (clock s1))) in *.
      destruct (st2 !! Contract.key c) as [c1|] eqn:Hc.
      * rewrite (bool_decide_eq_false_2 (Some c1 = None)) in * by done.
        simpl in *. destruct (Options.update options).
        -- apply bind_onExistsUpdate in H as (-> & -> & ->).
           split; [|done]. simpl. eauto.
        -- rewrite bind_ret in H.
           apply console_log_inv in H as (-> & -> & ->).
           split; [|done]. simpl. eauto.
      * rewrite (bool_decide_eq_true_2 (None = None)) in * by done.
        simpl in *. rewrite bind_ret in H.
        apply console_log_inv in H as (-> & -> & ->).
        split; [|done]. simpl.
        change (a, "foundation") with (Contract.key c).
        rewrite lookup_insert_eq. eauto.
    + apply Promise_all2_inv in Hall
        as (ra & sa & ta & rb & tb & Ha & Hb & -> & Hj);
        [| by eauto using fetchAddressEtherscan_settles
         | by eauto using fetchAddressBlockchair_settles].
      exists ra, sa, ta, rb, s', tb, [].
      split; [done|]. split; [done|]. split; [by rewrite app_nil_r|].
      pose proof (fetchAddressEtherscan_settles _ _ _ _ _ _ Ha) as Hsa.
      pose proof (fetchAddressBlockchair_settles _ _ _ _ _ _ Hb) as Hsb.
      destruct ra as [e| | |], rb as [b| | |]; try done; subst r0;
        simpl in Hh; destruct r as [|err| |]; try done; subst; simpl; eauto.
Qed.

(** ** From runs of the functions to the relations *)

Lemma fetchAddressEtherscan_run a env s r s' t :
  fetchAddressEtherscan a env s = (r, s', t) →
  etherscan_run env a (clock s) r t ∧ s' = tick s (store s).
Proof.
  intros (-> & -> & H)%fetchAddressEtherscan_inv. split; [|done].
  destruct (http env (clock s) (AddressPage a)) as [|status body] eqn:Hhttp.
  { subst. by constructor. }
  destruct (status =? 200) eqn:Hstatus.
  2:{ subst. apply es_status; [done|]. by apply Z.eqb_neq. }
  apply Z.eqb_eq in Hstatus as ->. cbv zeta in H.
  assert (match page_cargs (cheerio_detail env body) with
          | Some c => r = Ok (page_fields env a (cheerio_detail env body) c)
          | None => r = Throw (AssertionError ConstructorArgumentsValid)
          end) as Hr.
  { unfold page_cargs, page_fields.
    destruct (pre_cargs_html (cheerio_detail env body)) as [h|]; [|done].
    destruct (JS.truthy h); [|done].
    destruct (JS.match_hex_tag h) as [m1|]; [|done].
    by destruct (Nat.even (String.length m1)). }
  destruct (page_cargs (cheerio_detail env body)) as [c|] eqn:Hc; subst r.
  - by apply es_ok.
  - by apply es_invalid.
Qed.

Lemma fetchAddressBlockchair_run a env s r s' t :
  fetchAddressBlockchair a env s = (r, s', t) →
  blockchair_run env a (clock s) r t
  ∧ store s' = store s ∧ clock s' = (clock s + length t)%nat.
Proof.
  intros (Hstore & [(Hclock & -> & H)
        | (body & result & row & Hhttp & Hparse & Hdata & Hclock & -> & H)])
        %fetchAddressBlockchair_inv.
  - split; [|split; [done | simpl; lia]].
    destruct (http env (clock s) (Calls a)) as [|status body] eqn:Hhttp.
    { subst. by constructor. }
    destruct (status =? 200) eqn:Hstatus.
    2:{ subst. apply bc_status; [done|]. by apply Z.eqb_neq. }
    apply Z.eqb_eq in Hstatus as ->.
    destruct (JSON_parse env body) as [result|] eqn:Hparse.
    + destruct H as [Hlen ->]. by eapply bc_rows.
    + subst. by apply bc_syntax.
  - split; [|split; [done | simpl; lia]].
    destruct (ledger env (S (clock s)) "foundation" (transaction_hash row))
      as [i|] eqn:Hledger.
    + destruct (String.eqb_spec (TxInfo.address i) a); subst.
      * by eapply bc_ok.
      * by eapply bc_mismatch.
    + subst. by eapply bc_ledger.
Qed.

Lemma fetchAddress_run a0 options env s r s' t :
  fetchAddress a0 options env s = (r, s', t) →
  address_run options env s (JS.toLowerCase a0) r t
  ∧ (r = Ok tt →
     is_Some (store s' !! (JS.toLowerCase a0, "foundation"))).
Proof.
  intros [(Hin & Hs & H) | (Hout & H)]%fetchAddress_inv; cbv zeta in H.
  { pose proof (ar_exists options env s _ Hin) as Hrun.
    destruct (Options.update options), H as [-> ->]; split; try done.
    intros _. by rewrite Hs. }
  destruct H as (ra & sa & ta & rb & sb & tb & tail & Ha & Hb & -> & H).
  apply fetchAddressEtherscan_run in Ha as [Ha ->].
  apply fetchAddressBlockchair_run in Hb as (Hb & _ & _). simpl in Ha, Hb.
  assert (∀ err, joined ra rb = Throw err → tail = [] → r = Throw err →
          address_run options env s (JS.toLowerCase a0) r
            (EvExists (JS.toLowerCase a0) "foundation" false
               :: ta ++ tb ++ tail)
          ∧ (r = Ok tt →
             is_Some (store s' !! (JS.toLowerCase a0, "foundation"))))
    as Hfail.
  { intros err Hj -> ->. rewrite app_nil_r. split; [|done].
    by eapply ar_source_failed. }
  destruct ra as [e| | |]; try (destruct H as (-> & err & Hj & ->); eauto).
  destruct rb as [b| | |]; try (destruct H as (-> & err & Hj & ->); eauto).
  destruct H as (tail2 & -> & H).
  destruct (JS.match_trailing_alnum (Etherscan.compiler e)) as [m1|] eqn:Hm.
  2:{ destruct H as [-> ->]. split; [|done]. by eapply ar_no_fingerprint. }
  cbv zeta in H.
  destruct (JS.truthy (default "" (resolve options env (JS.slice m1 0 6))))
    eqn:Hv.
  2:{ destruct H as [-> ->]. split; [|done]. by eapply ar_no_version. }
  destruct H as [Hstored H].
  match type of H with
  | if (negb ?added && _)%bool then _ else _ =>
      pose proof (ar_saved options env s _ e ta b tb m1 added Hout Ha Hb Hm Hv)
        as Hrun;
      destruct (negb added && Options.update options)%bool
  end; destruct H as [-> ->]; by split.
Qed.

(** ** The two sources *)

(** Splitting a membership in a trace that is known event by event. *)
Ltac in_trace H :=
  repeat first
    [ progress simpl in H
    | rewrite in_app_iff in H
    | destruct H as [H | H]
    | discriminate H
    | contradiction H ].

Lemma blockchair_run_mismatch env a clk r t network txid i :
  blockchair_run env a clk r t →
  In (EvGetTxInfo network txid (Some i)) t →
  TxInfo.address i ≠ a →
  r = Throw (AssertionError SameAddress).
Proof.
  intros Hrun Hin Hne. inversion Hrun; subst; in_trace Hin; by simplify_eq.
Qed.

(** C5. Cross-source address mismatch. When the ledger lookup of a run of
    [fetchAddress] answers with an address that is not the requested
    (lower-case) address, [fetchAddressBlockchair] fails its [assert.equal],
    the run throws, and no record is handed to [save]. *)
Theorem address_mismatch_rejected a0 options env s r s' t network txid i :
  fetchAddress a0 options env s = (r, s', t) →
  In (EvGetTxInfo network txid (Some i)) t →
  TxInfo.address i ≠ JS.toLowerCase a0 →
  (∃ err, r = Throw err) ∧ (∀ c added, ¬ In (EvSave c added) t)
  ∧ ∃ clk tb, blockchair_run env (JS.toLowerCase a0) clk
                (Throw (AssertionError SameAddress)) tb
              ∧ In (EvGetTxInfo network txid (Some i)) tb.
Proof.
  intros [Hrun _]%fetchAddress_run Hin Hne.
  inversion Hrun as [Hex | ra ta rb tb err Hno Ha Hb Hj | e ta b tb Hno Ha Hb
                    | e ta b tb m1 Hno Ha Hb | e ta b tb m1 added Hno Ha Hb];
    subst.
  - in_trace Hin; by destruct (Options.update options).
  - assert (In (EvGetTxInfo network txid (Some i)) tb) as Hin'
      by (inversion Ha; subst; by in_trace Hin).
    pose proof (blockchair_run_mismatch _ _ _ _ _ _ _ _ Hb Hin' Hne) as ->.
    split; [by eexists|]. split; [|eauto].
    intros c added Hs. inversion Ha; inversion Hb; subst; in_trace Hs.
  - assert (In (EvGetTxInfo network txid (Some i)) tb) as Hin'
      by (inversion Ha; subst; by in_trace Hin).
    by pose proof (blockchair_run_mismatch _ _ _ _ _ _ _ _ Hb Hin' Hne).
  - assert (In (EvGetTxInfo network txid (Some i)) tb) as Hin'
      by (inversion Ha; subst; by in_trace Hin).
    by pose proof (blockchair_run_mismatch _ _ _ _ _ _ _ _ Hb Hin' Hne).
  - assert (In (EvGetTxInfo network txid (Some i)) tb) as Hin'.
    { inversion Ha; subst; in_trace Hin; try done.
      by destruct (negb added && Options.update options)%bool. }
    by pose proof (blockchair_run_mismatch _ _ _ _ _ _ _ _ Hb Hin' Hne).
Qed.

(** Finding an event in a trace that is known event by event. *)
Ltac trace_mem :=
  repeat first
    [ progress simpl
    | rewrite in_app_iff
    | match goal with |- _ ∨ _ => first [left; reflexivity | right] end ].

(** C6. Row count of source B. When the answer of source B parses, either
    its [data] has exactly one row and the run goes on to the ledger lookup
    for the transaction of that row, or the length is not 1 and the run
    throws on the row-count assertion with no ledger lookup and no call to
    [save]. *)
Theorem exactly_one_row a0 options env s r s' t x id body result :
  fetchAddress a0 options env s = (r, s', t) →
  In (EvFetch (Calls x) id (Response 200 body)) t →
  JSON_parse env body = Some result →
  (∃ row res, data result = [row]
      ∧ In (EvGetTxInfo "foundation" (transaction_hash row) res) t)
  ∨ (length (data result) ≠ 1%nat
     ∧ (∃ err, r = Throw err)
     ∧ (∀ network txid res, ¬ In (EvGetTxInfo network txid res) t)
     ∧ (∀ c added, ¬ In (EvSave c added) t)
     ∧ ∃ clk tb,
         blockchair_run env (JS.toLowerCase a0) clk
           (Throw (AssertionError (ExactlyOneRow (length (data result))))) tb).
Proof.
  intros [Hrun _]%fetchAddress_run Hin Hparse.
  inversion Hrun as [Hex | ra ta rb tb err Hno Ha Hb Hj | e ta b tb Hno Ha Hb
                    | e ta b tb m1 Hno Ha Hb | e ta b tb m1 added Hno Ha Hb];
    subst.
  { in_trace Hin; by destruct (Options.update options). }
  all: assert (In (EvFetch (Calls x) id (Response 200 body)) tb) as Hin'
    by (inversion Ha; subst; in_trace Hin; try done;
        by destruct (negb added && Options.update options)%bool).
  all: inversion Hb; subst; in_trace Hin'; simplify_eq.
  all: try by (left; eexists _, _; split; [eassumption|]; trace_mem).
  right. split; [done|]. split; [by eexists|].
  split; [|split; [|eauto]].
  - intros network txid res Hl. inversion Ha; subst; in_trace Hl.
  - intros c added Hl. inversion Ha; subst; in_trace Hl.
Qed.

(** Either the run fails without a call to [save], or the page is valid
    and every saved record is assembled from its fields. *)
Lemma address_run_page options env s a r t x id status body :
  address_run options env s a r t →
  In (EvFetch (AddressPage x) id (Response status body)) t →
  ((∃ err, r = Throw err) ∧ ∀ c added, ¬ In (EvSave c added) t)
  ∨ (∃ cargs,
       page_cargs (cheerio_detail env body) = Some cargs
       ∧ ∀ c added, In (EvSave c added) t →
           ∃ b v, c = assemble a
                        (page_fields env a (cheerio_detail env body) cargs)
                        b v).
Proof.
  intros Hrun Hin.
  inversion Hrun as [Hex | ra ta rb tb err Hno Ha Hb Hj | e ta b tb Hno Ha Hb
                    | e ta b tb m1 Hno Ha Hb | e ta b tb m1 added Hno Ha Hb];
    subst.
  { in_trace Hin; by destruct (Options.update options). }
  1-3: left; (split; [by eexists|]); intros c added' Hs;
       inversion Ha; inversion Hb; subst; in_trace Hs.
  right. inversion Ha; subst.
  assert (body0 = body) as ->.
  { inversion Hb; subst; in_trace Hin; simplify_eq; try done;
      by destruct (negb added && Options.update options)%bool. }
  eexists. split; [done|]. intros c' added' Hs.
  inversion Hb; subst; in_trace Hs; simplify_eq; eauto.
  all: by destruct (negb added && Options.update options)%bool.
Qed.

(** ** Facts about the string functions *)

Lemma span_spec p s :
  s = fst (JS.span p s) +:+ snd (JS.span p s)
  ∧ all_chars p (fst (JS.span p s)) = true.
Proof.
  induction s as [|c s [IH1 IH2]]; simpl; [done|].
  destruct (p c) eqn:Hc; [|done].
  destruct (JS.span p s) as [run rest]; simpl in *.
  split; [|by rewrite Hc].
  change (String c s = String c (run +:+ rest)). by f_equal.
Qed.



Lemma last_char_None s : JS.last_char s = None → s = "".
Proof.
  induction s as [|c s IH]; [done|]. simpl.
  destruct s; [done|]. intros H. by specialize (IH H).
Qed.

Lemma rev_app_head s acc :
  match JS.last_char s with
  | Some c => ∃ rest, String.rev_app s acc = String c rest
  | None => String.rev_app s acc = acc
  end.
Proof.
  revert acc. induction s as [|a s IH]; intros acc; [done|].
  specialize (IH (String a acc)). simpl.
  destruct s as [|b s]; [by eexists|].
  destruct (JS.last_char (String b s)) eqn:Hlast; [done|].
  by apply last_char_None in Hlast.
Qed.

Lemma truthy_rev_app s acc :
  JS.truthy (String.rev_app s acc) = (JS.truthy s || JS.truthy acc)%bool.
Proof.
  revert acc. induction s as [|a s IH]; intros acc; [done|].
  simpl. rewrite IH. simpl. by rewrite orb_true_r.
Qed.

(** [s.match(/([a-z0-9]+)$/)] is [null] exactly when [s] is empty or ends
    with a character outside the class. *)
Lemma match_trailing_alnum_None s :
  JS.match_trailing_alnum s = None
  ↔ match JS.last_char s with
    | Some c => JS.is_lower_alnum c = false
    | None => True
    end.
Proof.
  unfold JS.match_trailing_alnum, JS.trailing_run, String.rev.
  rewrite truthy_rev_app, orb_false_r.
  pose proof (rev_app_head s "") as Hhead.
  destruct (JS.last_char s) as [c|].
  - destruct Hhead as [rest ->]. simpl.
    destruct (JS.is_lower_alnum c); [|done].
    destruct (JS.span JS.is_lower_alnum rest). simpl. split; done.
  - by rewrite Hhead.
Qed.

(** ** The fields of the record *)




(** C8, amended. The optimise field of a saved record is [false] when the
    optimization flag of the page is not "Yes", and otherwise the parsed run
    count itself, a number or [NaN]; it is truthy exactly when the flag is
    on and the run count is a number other than zero. *)
Theorem optimise_field a0 options env s r s' t x id status body c added :
  fetchAddress a0 options env s = (r, s', t) →
  In (EvFetch (AddressPage x) id (Response status body)) t →
  In (EvSave c added) t →
  let doc := cheerio_detail env body in
  let optimizationEnabled :=
    String.eqb (JS.trim (td_optimization doc)) "Yes" in
  let optimizationRuns := parseInt10 (JS.trim (td_runs doc)) in
  Info.optimise (Contract.info c)
  = (if optimizationEnabled then optimizationRuns else JSBool false)
  ∧ jsval_truthy (Info.optimise (Contract.info c))
    = (optimizationEnabled && jsval_truthy optimizationRuns)%bool.
Proof.
  intros [Hrun _]%fetchAddress_run Hin Hs doc enabled runs.
  destruct (address_run_page _ _ _ _ _ _ _ _ _ _ Hrun Hin)
    as [[_ Hnone] | (cargs & _ & Hsaved)].
  { by apply Hnone in Hs. }
  apply Hsaved in Hs as (b & v & ->). simpl.
  fold doc. fold enabled. fold runs. split; [done|].
  by destruct enabled.
Qed.

(** ** The fingerprint of the compiler *)

Lemma etherscan_run_functional env a clk r t r' t' :
  etherscan_run env a clk r t → etherscan_run env a clk r' t' →
  r = r' ∧ t = t'.
Proof. inversion 1; inversion 1; subst; split; congruence. Qed.

Lemma blockchair_run_functional env a clk r t r' t' :
  blockchair_run env a clk r t → blockchair_run env a clk r' t' →
  r = r' ∧ t = t'.
Proof.
  inversion 1; inversion 1; subst; try (split; congruence); exfalso;
    repeat match goal with
    | H1 : ?x = ?u, H2 : ?x = ?v |- _ => rewrite H1 in H2; simplify_eq
    end;
    match goal with
    | Hn : length (data ?res) ≠ 1%nat, Hd : data ?res = [_] |- _ =>
        by rewrite Hd in Hn
    end.
Qed.

Lemma etherscan_run_aliases env aliases a clk r t :
  etherscan_run (with_compilersMap env aliases) a clk r t →
  etherscan_run env a clk r t.
Proof.
  inversion 1; subst; simpl in *;
    [by apply es_unreachable | by apply es_status
    | by apply es_invalid | by apply (es_ok env)].
Qed.

Lemma blockchair_run_aliases env aliases a clk r t :
  blockchair_run (with_compilersMap env aliases) a clk r t →
  blockchair_run env a clk r t.
Proof.
  inversion 1; subst; simpl in *;
    [by apply bc_unreachable | by apply bc_status | by apply bc_syntax
    | by eapply bc_rows | by eapply bc_ledger | by eapply bc_mismatch
    | by eapply bc_ok].
Qed.

(** A run that reaches the fingerprint step with a compiler string that has
    no fingerprint stops there. *)
Lemma address_run_no_fingerprint options env s a r t x id status body y :
  address_run options env s a r t →
  In (EvFetch (AddressPage x) id (Response status body)) t →
  In (EvLog info (LoadAddress y)) t →
  JS.match_trailing_alnum (JS.trim (td_compiler (cheerio_detail env body)))
  = None →
  ∃ e ta b tb,
    (store s ∪ other_writers env (clock s)) !! (a, "foundation") = None
    ∧ etherscan_run env a (S (clock s)) (Ok e) ta
    ∧ blockchair_run env a (S (S (clock s))) (Ok b) tb
    ∧ r = Throw TypeError
    ∧ t = EvExists a "foundation" false :: ta ++ tb
            ++ [EvLog info (LoadAddress a)].
Proof.
  intros Hrun Hin Hlog Hlast.
  inversion Hrun as [Hex | ra ta rb tb err Hno Ha Hb Hj | e ta b tb Hno Ha Hb Hm
                    | e ta b tb m1 Hno Ha Hb Hm | e ta b tb m1 added Hno Ha Hb Hm];
    subst.
  - in_trace Hin; by destruct (Options.update options).
  - inversion Ha; inversion Hb; subst; in_trace Hlog.
  - by exists e, ta, b, tb.
  - exfalso. inversion Ha; subst.
    assert (body0 = body) as ->
      by (inversion Hb; subst; in_trace Hin; by simplify_eq).
    simpl in Hm. congruence.
  - exfalso. inversion Ha; subst.
    assert (body0 = body) as ->.
    { inversion Hb; subst; in_trace Hin; simplify_eq; try done;
        by destruct (negb added && Options.update options)%bool. }
    simpl in Hm. congruence.
Qed.

(** C10. The fingerprint needs a compiler string that ends in [a-z0-9]. When
    both sources have answered and the trimmed compiler string is empty or
    ends with any other character, the run throws [TypeError], which is not
    an assertion failure, nothing is saved, and the run is the same whatever
    the version index and the alias table hold: neither is consulted. *)
Theorem no_fingerprint a0 options env s r s' t x id status body y :
  fetchAddress a0 options env s = (r, s', t) →
  In (EvFetch (AddressPage x) id (Response status body)) t →
  In (EvLog info (LoadAddress y)) t →
  match JS.last_char (JS.trim (td_compiler (cheerio_detail env body))) with
  | Some c => JS.is_lower_alnum c = false
  | None => True
  end →
  r = Throw TypeError
  ∧ (∀ site, r ≠ Throw (AssertionError site))
  ∧ (∀ c added, ¬ In (EvSave c added) t)
  ∧ ∀ soljsonVersions aliases r2 s2 t2,
      fetchAddress a0 (Options.mk soljsonVersions (Options.update options))
        (with_compilersMap env aliases) s = (r2, s2, t2) →
      r2 = Throw TypeError ∧ t2 = t.
Proof.
  intros [Hrun _]%fetchAddress_run Hin Hlog Hlast%match_trailing_alnum_None.
  destruct (address_run_no_fingerprint _ _ _ _ _ _ _ _ _ _ _ Hrun Hin Hlog Hlast)
    as (e & ta & b & tb & Hno & Ha & Hb & -> & ->).
  split; [done|]. split; [done|]. split.
  { intros c added Hs. inversion Ha; inversion Hb; subst; in_trace Hs. }
  intros idx aliases r2 s2 t2 [Hrun2 _]%fetchAddress_run.
  assert (JS.match_trailing_alnum (Etherscan.compiler e) = None) as Hnone.
  { inversion Ha; subst.
    assert (body0 = body) as ->
      by (inversion Hb; subst; in_trace Hin; by simplify_eq).
    done. }
  inversion Hrun2 as [Hex | ra ta' rb tb' err Hno' Ha' Hb' Hj
                     | e' ta' b' tb' Hno' Ha' Hb' Hm
                     | e' ta' b' tb' m1 Hno' Ha' Hb' Hm
                     | e' ta' b' tb' m1 added Hno' Ha' Hb' Hm];
    subst; simpl in *.
  { rewrite Hno in Hex. by destruct Hex. }
  all: apply etherscan_run_aliases in Ha';
       apply blockchair_run_aliases in Hb';
       destruct (etherscan_run_functional _ _ _ _ _ _ _ Ha Ha');
       destruct (blockchair_run_functional _ _ _ _ _ _ _ Hb Hb');
       simplify_eq; try done.
  all: congruence.
Qed.

(** ** Ingesting an address twice *)

Lemma saved_app t1 t2 : saved (t1 ++ t2) = saved t1 ++ saved t2.
Proof.
  induction t1 as [|ev t1 IH]; [done|]. destruct ev; simpl; by rewrite ?IH.
Qed.

Lemma etherscan_run_saved env a clk r t :
  etherscan_run env a clk r t → saved t = [].
Proof. by inversion 1. Qed.

Lemma blockchair_run_saved env a clk r t :
  blockchair_run env a clk r t → saved t = [].
Proof. by inversion 1. Qed.

(** C4. Idempotent ingestion. Without update mode, when the first ingestion
    of a new address returns, it has handed exactly one record to [save];
    a second ingestion of the same address then consists of the existence
    check, which answers [true], and the line "Already exists", with no
    request, no [save], and a normal return. *)
Theorem ingest_twice a0 a1 options env s s1 t1 :
  Options.update options = false →
  JS.toLowerCase a1 = JS.toLowerCase a0 →
  fetchAddress a0 options env s = (Ok tt, s1, t1) →
  In (EvExists (JS.toLowerCase a0) "foundation" false) t1 →
  ∃ c s2 t2,
    saved t1 = [c]
    ∧ fetchAddress a1 options env s1 = (Ok tt, s2, t2)
    ∧ t2 = [EvExists (JS.toLowerCase a0) "foundation" true;
            EvLog info (AlreadyExists (JS.toLowerCase a0))]
    ∧ saved (t1 ++ t2) = [c].
Proof.
  intros Hupdate Ha1 [Hrun Hstored]%fetchAddress_run Hnew.
  specialize (Hstored eq_refl).
  assert (∃ c, saved t1 = [c]) as [c Hc].
  { inversion Hrun as [Hex | | | | e ta b tb m1 added Hno Ha Hb Hm Hv Hr];
      subst.
    - in_trace Hnew; by rewrite Hupdate in *.
    - rewrite Hupdate, andb_false_r. simpl.
      rewrite !saved_app, (etherscan_run_saved _ _ _ _ _ Ha),
        (blockchair_run_saved _ _ _ _ _ Hb). simpl. eauto. }
  destruct (fetchAddress a1 options env s1) as [[r2 s2] t2] eqn:H2.
  apply fetchAddress_run in H2 as [Hrun2 _]. rewrite Ha1 in Hrun2.
  exists c, s2, t2. split; [done|].
  inversion Hrun2 as [Hex | ? ? ? ? ? Hno | ? ? ? ? Hno | ? ? ? ? ? Hno
                     | ? ? ? ? ? ? Hno]; subst.
  - rewrite Hupdate. split; [done|]. split; [done|].
    by rewrite saved_app, Hc.
  - apply lookup_union_None in Hno as [Hno _].
    rewrite Hno in Hstored. by destruct Hstored.
  - apply lookup_union_None in Hno as [Hno _].
    rewrite Hno in Hstored. by destruct Hstored.
  - apply lookup_union_None in Hno as [Hno _].
    rewrite Hno in Hstored. by destruct Hstored.
  - apply lookup_union_None in Hno as [Hno _].
    rewrite Hno in Hstored. by destruct Hstored.
Qed.

(** ** Update mode *)

Lemma stopping_bind {A B} (m : M A) (f : A → M B) :
  stopping m → (∀ a, stopping (f a)) → stopping (bind m f).
Proof.
  intros Hm Hf env s. specialize (Hm env s). unfold bind.
  destruct (m env s) as [[[a|e|c|] s1] t1].
  2-4: unfold stops_at_existing in *; simpl in *;
       destruct Hm as [Hm | (pre & ev & Ht & Hpre & Hev & Hr)];
       [by left | right; exists pre, ev; by simplify_eq].
  specialize (Hf a env s1). destruct (f a env s1) as [[r2 s2] t2].
  unfold stops_at_existing in *; simpl in *.
  destruct Hm as [Hm | (pre & ev & _ & _ & _ & ?)]; [|done].
  destruct Hf as [Hf | (pre & ev & -> & Hpre & Hev & ->)].
  - left. by apply Forall_app.
  - right. exists (t1 ++ pre), ev. rewrite <- app_assoc.
    split; [done|]. split; [by apply Forall_app | done].
Qed.

Lemma stopping_quiet {A} (m : M A) :
  (∀ env s, Forall (fun ev => found_existing ev = false) (m env s).2) →
  stopping m.
Proof. intros H env s. by left. Qed.

Lemma stopping_ret {A} (a : A) : stopping (ret a).
Proof. by apply stopping_quiet. Qed.

Lemma stopping_throw {A} e : stopping (@throw A e).
Proof. by apply stopping_quiet. Qed.

Lemma stopping_out_of_fuel {A} : stopping (@out_of_fuel A).
Proof. by apply stopping_quiet. Qed.

Lemma stopping_console_log sym msg : stopping (console_log sym msg).
Proof. apply stopping_quiet. intros env s. simpl. by repeat constructor. Qed.

Lemma stopping_fetchText url id : stopping (fetchText url id).
Proof.
  apply stopping_quiet. intros env s.
  destruct id; simpl; by repeat constructor.
Qed.

Lemma stopping_for_of {A} (xs : list A) (f : A → M unit) :
  (∀ x, stopping (f x)) → stopping (for_of xs f).
Proof.
  intros Hf. induction xs as [|x xs IH]; simpl.
  - apply stopping_ret.
  - by apply stopping_bind.
Qed.

Lemma etherscan_run_quiet env a clk r t :
  etherscan_run env a clk r t →
  Forall (fun ev => found_existing ev = false) t.
Proof. inversion 1; by repeat constructor. Qed.

Lemma blockchair_run_quiet env a clk r t :
  blockchair_run env a clk r t →
  Forall (fun ev => found_existing ev = false) t.
Proof. inversion 1; by repeat constructor. Qed.

Lemma stopping_fetchAddress a0 options :
  Options.update options = true → stopping (fetchAddress a0 options).
Proof.
  intros Hupdate env s.
  destruct (fetchAddress a0 options env s) as [[r s'] t] eqn:H.
  apply fetchAddress_run in H as [Hrun _]. unfold stops_at_existing. simpl.
  inversion Hrun as [Hex | ra ta rb tb err Hno Ha Hb Hj | e ta b tb Hno Ha Hb Hm
                    | e ta b tb m1 Hno Ha Hb Hm | e ta b tb m1 added Hno Ha Hb Hm];
    subst; rewrite ?Hupdate, ?andb_true_r.
  - right. by exists [], (EvExists (JS.toLowerCase a0) "foundation" true).
  - left. constructor; [done|]. apply Forall_app.
    eauto using etherscan_run_quiet, blockchair_run_quiet.
  - left. constructor; [done|]. rewrite !Forall_app.
    split; [by eapply etherscan_run_quiet|].
    split; [by eapply blockchair_run_quiet|]. by repeat constructor.
  - left. constructor; [done|]. rewrite !Forall_app.
    split; [by eapply etherscan_run_quiet|].
    split; [by eapply blockchair_run_quiet|]. by repeat constructor.
  - destruct added; simpl.
    + left. constructor; [done|]. rewrite !Forall_app.
      split; [by eapply etherscan_run_quiet|].
      split; [by eapply blockchair_run_quiet|]. by repeat constructor.
    + right. eexists (_ :: ta ++ tb ++ [_]), _.
      split; [simpl; by rewrite <- !app_assoc|].
      split; [|done]. constructor; [done|]. rewrite !Forall_app.
      split; [by eapply etherscan_run_quiet|].
      split; [by eapply blockchair_run_quiet|]. by repeat constructor.
Qed.

Lemma stopping_fetchPage page options :
  Options.update options = true → stopping (fetchPage page options).
Proof.
  intros Hupdate. unfold fetchPage.
  apply stopping_bind; [apply stopping_fetchText|]. intros html.
  apply stopping_bind; [apply stopping_console_log|]. intros _.
  apply stopping_bind; [by apply stopping_quiet|]. intros env.
  apply stopping_bind.
  { apply stopping_for_of. intros a. by apply stopping_fetchAddress. }
  intros _. case_match; [apply stopping_ret | apply stopping_throw].
Qed.

Lemma stopping_fetchPages fuel page up options :
  Options.update options = true → stopping (fetchPages fuel page up options).
Proof.
  intros Hupdate. revert page.
  induction fuel as [|fuel IH]; intros page; simpl.
  - apply stopping_out_of_fuel.
  - apply stopping_bind; [by apply stopping_fetchPage|]. intros total.
    case_match; [apply stopping_ret | apply IH].
Qed.

Lemma stopping_main fuel args :
  Args.update args = true → stopping (main fuel args).
Proof.
  intros Hupdate. unfold main, soljsonVersionsLoad.
  apply stopping_bind.
  { apply stopping_bind; [apply stopping_fetchText|].
    intros text. apply stopping_ret. }
  intros soljsonVersions. apply stopping_bind.
  { repeat case_match; try apply stopping_ret.
    by apply stopping_fetchAddress. }
  intros _. apply stopping_bind.
  { repeat case_match; try apply stopping_ret.
    apply stopping_bind; [by apply stopping_fetchPage|].
    intros _. apply stopping_ret. }
  intros _. repeat case_match; try apply stopping_ret.
  by apply stopping_fetchPages.
Qed.

(** The first event of a kind is where it is. *)
Lemma first_found (p : event → bool) pre ev post pre' ev' post' :
  pre ++ ev :: post = pre' ++ ev' :: post' →
  Forall (fun e => p e = false) pre' →
  Forall (fun e => p e = false) post' →
  p ev = true → p ev' = true →
  pre = pre' ∧ ev = ev' ∧ post = post'.
Proof.
  revert pre'. induction pre as [|x pre IH]; intros [|x' pre'] Heq Hpre' Hpost' Hev Hev';
    simplify_eq/=.
  - done.
  - apply Forall_cons in Hpre' as [? _]. congruence.
  - apply Forall_forall with (x := ev) in Hpost'; [congruence|].
    apply list_elem_of_In, in_app_iff. right. by left.
  - apply Forall_cons in Hpre' as [_ Hpre'].
    destruct (IH _ H0 Hpre' Hpost' Hev Hev') as (-> & -> & ->). done.
Qed.

(** C3. Update-mode early stop. In update mode, once the store answers that
    an address is already there (the existence check answers [true] or
    [save] answers [false]), the only event that follows in the run of
    [main] is the line logged by [onExistsUpdate]: no other address or page
    is processed, the store is not called again, and the process exits with
    status 0. *)
Theorem update_stops_at_existing fuel args env s r s' t pre ev post :
  Args.update args = true →
  main fuel args env s = (r, s', t) →
  t = pre ++ ev :: post →
  found_existing ev = true →
  post = [EvLog info ExistedContractIsReached]
  ∧ r = Exit 0
  ∧ exit_status r = Some 0.
Proof.
  intros Hupdate Hrun -> Hev.
  pose proof (stopping_main fuel args Hupdate env s) as Hstop.
  rewrite Hrun in Hstop.
  destruct Hstop as [Hnone | (pre' & ev' & Ht & Hpre' & Hev' & Hr)];
    simpl in *.
  - apply Forall_app in Hnone as [_ Hnone].
    apply Forall_cons in Hnone as [? _]. congruence.
  - subst r.
    destruct (first_found found_existing pre ev post pre' ev'
                [EvLog info ExistedContractIsReached] Ht Hpre')
      as (_ & _ & ->); try done.
    by repeat constructor.
Qed.

(** ** Crawling *)











(** ** The properties on the examples *)


Lemma update_stops_at_existing_witness :
  drop 11 run_update.2 = [EvLog info ExistedContractIsReached]
  ∧ run_update.1.1 = Exit 0
  ∧ exit_status run_update.1.1 = Some 0.
Proof.
  apply (update_stops_at_existing 5
           (Args.mk None None (Some (1, latest)) true) world_update
           empty_state run_update.1.1 run_update.1.2 run_update.2
           (take 10 run_update.2) (EvExists "0xaaa" "foundation" true)).
  - reflexivity.
  - vm_compute. reflexivity.
  - vm_compute. reflexivity.
  - reflexivity.
Defined.

Lemma ingest_twice_witness :
  ∃ c s2 t2,
    saved run_bbb.2 = [c]
    ∧ fetchAddress "0xbbb" (sample_options false) world_bbb run_bbb.1.2
      = (Ok tt, s2, t2)
    ∧ t2 = [EvExists "0xbbb" "foundation" true;
            EvLog info (AlreadyExists "0xbbb")]
    ∧ saved (run_bbb.2 ++ t2) = [c].
Proof.
  apply (ingest_twice "0xBBB" "0xbbb" (sample_options false) world_bbb
           empty_state run_bbb.1.2 run_bbb.2).
  - reflexivity.
  - reflexivity.
  - vm_compute. reflexivity.
  - vm_compute. left. reflexivity.
Defined.

Lemma address_mismatch_rejected_witness :
  (∃ err, run_mismatch.1.1 = Throw err)
  ∧ (∀ c added, ¬ In (EvSave c added) run_mismatch.2)
  ∧ ∃ clk tb,
      blockchair_run (sample_env sample_doc one_row "0xccc" no_listing)
        "0xbbb" clk (Throw (AssertionError SameAddress)) tb
      ∧ In (EvGetTxInfo "foundation" "0x01" (Some (TxInfo.mk "0xccc" "6060")))
           tb.
Proof.
  apply (address_mismatch_rejected "0xBBB" (sample_options false)
           (sample_env sample_doc one_row "0xccc" no_listing) empty_state
           run_mismatch.1.1 run_mismatch.1.2 run_mismatch.2).
  - vm_compute. reflexivity.
  - vm_compute. right. right. right. left. reflexivity.
  - vm_compute. discriminate.
Defined.

Lemma exactly_one_row_witness :
  (∃ row res, [] = [row]
      ∧ In (EvGetTxInfo "foundation" (transaction_hash row) res) run_no_row.2)
  ∨ (0%nat ≠ 1%nat
     ∧ (∃ err, run_no_row.1.1 = Throw err)
     ∧ (∀ network txid res, ¬ In (EvGetTxInfo network txid res) run_no_row.2)
     ∧ (∀ c added, ¬ In (EvSave c added) run_no_row.2)
     ∧ ∃ clk tb,
         blockchair_run (sample_env sample_doc [] "0xbbb" no_listing)
           "0xbbb" clk (Throw (AssertionError (ExactlyOneRow 0))) tb).
Proof.
  apply (exactly_one_row "0xBBB" (sample_options false)
           (sample_env sample_doc [] "0xbbb" no_listing) empty_state
           run_no_row.1.1 run_no_row.1.2 run_no_row.2
           "0xbbb" (Some "blockchair") "0xbbb" {| data := [] |}).
  - vm_compute. reflexivity.
  - vm_compute. right. right. left. reflexivity.
  - reflexivity.
Defined.


Lemma optimise_field_witness :
  Info.optimise (Contract.info record_bbb) = JSNumber 200
  ∧ jsval_truthy (Info.optimise (Contract.info record_bbb)) = true.
Proof.
  apply (optimise_field "0xBBB" (sample_options false) world_bbb
           empty_state run_bbb.1.1 run_bbb.1.2 run_bbb.2
           "0xbbb" (Some "etherscan") 200 "0xbbb" record_bbb true).
  - vm_compute. reflexivity.
  - vm_compute. right. left. reflexivity.
  - vm_compute. do 5 right. left. reflexivity.
Defined.

Lemma no_fingerprint_witness :
  run_capital.1.1 = Throw TypeError
  ∧ (∀ site, run_capital.1.1 ≠ Throw (AssertionError site))
  ∧ (∀ c added, ¬ In (EvSave c added) run_capital.2)
  ∧ ∀ soljsonVersions aliases r2 s2 t2,
      fetchAddress "0xBBB" (Options.mk soljsonVersions false)
        (with_compilersMap (sample_env doc_capital one_row "0xbbb" no_listing)
           aliases) empty_state = (r2, s2, t2) →
      r2 = Throw TypeError ∧ t2 = run_capital.2.
Proof.
  apply (no_fingerprint "0xBBB" (sample_options false)
           (sample_env doc_capital one_row "0xbbb" no_listing) empty_state
           run_capital.1.1 run_capital.1.2 run_capital.2
           "0xbbb" (Some "etherscan") 200 "0xbbb" "0xbbb").
  - vm_compute. reflexivity.
  - vm_compute. right. left. reflexivity.
  - vm_compute. do 4 right. left. reflexivity.
  - vm_compute. reflexivity.
Defined.

(** C8 as stated fails: with the flag on and 200 runs the field of the saved
    record is the number 200, not a boolean. *)
Lemma optimise_is_boolean_fails : ¬ optimise_is_boolean.
Proof.
  intros Hclaim.
  specialize (Hclaim "0xBBB" (sample_options false) world_bbb empty_state
                run_bbb.1.1 run_bbb.1.2 run_bbb.2
                "0xbbb" (Some "etherscan") 200 "0xbbb" record_bbb true).
  discriminate Hclaim.
  - vm_compute. reflexivity.
  - vm_compute. right. left. reflexivity.
  - vm_compute. do 5 right. left. reflexivity.
Qed.

(** The race that [save] reports: in update mode the run stops there. *)
Example save_lost_race :
  fetchAddress "0xBBB" (sample_options true) world_race empty_state
  = (Exit 0,
     {| store := {[ ("0xbbb", "foundation") := record_bbb ]}; clock := 7 |},
     [EvExists "0xbbb" "foundation" false;
      EvFetch (AddressPage "0xbbb") (Some "etherscan") (Response 200 "0xbbb");
      EvFetch (Calls "0xbbb") (Some "blockchair") (Response 200 "0xbbb");
      EvGetTxInfo "foundation" "0x01" (Some (TxInfo.mk "0xbbb" "6060"));
      EvLog info (LoadAddress "0xbbb");
      EvSave record_bbb false;
      EvLog info ExistedContractIsReached]).
Proof. vm_compute. reflexivity. Qed.

(** The override table: 0xDDD has no constructor arguments on its page and
    the entry aa01 in the table. *)
Example constructor_from_override :
  map (fun c => Info.constructor (Contract.info c))
    (saved (fetchAddress "0xDDD" (sample_options false)
              (sample_env doc_plain one_row "0xddd" no_listing)
              empty_state).2)
  = ["aa01"].
Proof. vm_compute. reflexivity. Qed.

(** * The rest of the script *)

Example coerce_ex :
  coerce "3..17" = Pages 3 (upto 17)
  ∧ coerce "007..latest" = Pages 7 latest
  ∧ coerce "5..5" = Pages 5 (upto 5)
  ∧ coerce "9..3" = InvalidPages "9..3"
  ∧ coerce "..3" = InvalidPages "..3"
  ∧ coerce "1..2 " = InvalidPages "1..2 "
  ∧ coerce "1...2" = InvalidPages "1...2"
  ∧ coerce "1..Latest" = InvalidPages "1..Latest"
  ∧ coerce "-1..2" = InvalidPages "-1..2".
Proof. repeat split; reflexivity. Qed.

Lemma append_cons c a b : String c a +:+ b = String c (a +:+ b).
Proof. reflexivity. Qed.

Lemma span_stop p a c b :
  all_chars p a = true → p c = false →
  JS.span p (a +:+ String c b) = (a, String c b).
Proof.
  intros Ha Hc. induction a as [|x a IH]; simpl in *.
  - by rewrite Hc.
  - apply andb_prop in Ha as [Hx Ha]. by rewrite Hx, IH.
Qed.

Lemma span_all p a : all_chars p a = true → JS.span p a = (a, "").
Proof.
  intros Ha. induction a as [|x a IH]; simpl in *; [done|].
  apply andb_prop in Ha as [Hx Ha]. by rewrite Hx, IH.
Qed.




(** [parseInt] on a run of digits. *)
Lemma parseInt10_digits s : digits s → parseInt10 s = JSNumber (JS.Number s).
Proof.
  intros [Ht Hd]. unfold parseInt10, JS.trimStart.
  destruct s as [|c s]; [done|]. simpl in Hd.
  apply andb_prop in Hd as [Hc Hd].
  assert (JS.is_space c = false) as Hsp.
  { destruct c as [[] [] [] [] [] [] [] []]; by vm_compute in Hc |- *. }
  simpl. rewrite Hsp. simpl.
  assert (c ≠ "-"%char ∧ c ≠ "+"%char) as [Hm Hp].
  { split; intros ->; by vm_compute in Hc. }
  assert (fst (JS.span JS.is_digit (String c s)) = String c s) as Hrun.
  { rewrite span_all; [done|]. simpl. by rewrite Hc, Hd. }
  destruct c as [[] [] [] [] [] [] [] []]; try done;
    cbv zeta; rewrite Hrun; done.
Qed.



Section Respects.
Variable P : event → Prop.
Variable K : ending → Prop.

Lemma respects_bind {A B} (m : M A) (f : A → M B) :
  respects P K m → (∀ a, respects P K (f a)) → respects P K (bind m f).
Proof.
  intros Hm Hf env s. specialize (Hm env s). unfold bind.
  destruct (m env s) as [[[a|e|c|] s1] t1]; try exact Hm.
  specialize (Hf a env s1). destruct (f a env s1) as [[r2 s2] t2].
  simpl in *. split; [|apply Hf]. apply Forall_app. split; [apply Hm | apply Hf].
Qed.

Lemma respects_ret {A} (a : A) : K returns → respects P K (ret a).
Proof. by split. Qed.

Lemma respects_throw {A} e : K throws → respects P K (@throw A e).
Proof. by split. Qed.

Lemma respects_ask : K returns → respects P K ask.
Proof. by split. Qed.

Lemma respects_assert cond site :
  K returns → K throws → respects P K (assert cond site).
Proof. intros ? ?. destruct cond; [by apply respects_ret | by apply respects_throw]. Qed.

Lemma respects_console_log sym msg :
  P (EvLog sym msg) → K returns → respects P K (console_log sym msg).
Proof. intros ? ? env s. split; [by repeat constructor | done]. Qed.

Lemma respects_fetchText url id :
  (∀ res, P (EvFetch url id res)) → K returns → K throws →
  respects P K (fetchText url id).
Proof.
  intros HP ? ? env s. destruct id; simpl.
  all: split; [by repeat constructor|].
  all: destruct (http env (clock s) url) as [|status body]; [done|].
  all: by destruct (status =? 200).
Qed.

Lemma respects_exists address network :
  (∀ found, P (EvExists address network found)) → K returns →
  respects P K (existsByAddressNetwork address network).
Proof. intros ? ? env s. split; [by repeat constructor | done]. Qed.

Lemma respects_save c :
  (∀ added, P (EvSave c added)) → K returns → respects P K (save c).
Proof. intros ? ? env s. split; [by repeat constructor | done]. Qed.

Lemma respects_getTxInfo network txid :
  (∀ res, P (EvGetTxInfo network txid res)) → K returns → K throws →
  respects P K (getTxInfo network txid).
Proof.
  intros ? ? ? env s. split; [by repeat constructor|]. simpl.
  by destruct (ledger env (clock s) network txid).
Qed.

Lemma respects_for_of {A} (xs : list A) (f : A → M unit) :
  K returns → (∀ x, respects P K (f x)) → respects P K (for_of xs f).
Proof.
  intros ? Hf. induction xs as [|x xs IH]; simpl.
  - by apply respects_ret.
  - by apply respects_bind.
Qed.

Lemma respects_Promise_all2 {A B} (ma : M A) (mb : M B) :
  respects P K ma → respects P K mb → respects P K (Promise_all2 ma mb).
Proof.
  intros Ha Hb env s. specialize (Ha env s). unfold Promise_all2.
  destruct (ma env s) as [[[a|e|c|] s1] t1]; try exact Ha.
  all: specialize (Hb env s1); destruct (mb env s1) as [[[b|e'|c'|] s2] t2];
    simpl in *; (split; [apply Forall_app; split; [apply Ha | apply Hb]|]);
    first [apply Hb | apply Ha].
Qed.
End Respects.

Lemma lower_char_idem c : JS.lower_char (JS.lower_char c) = JS.lower_char c.
Proof. destruct c as [[] [] [] [] [] [] [] []]; reflexivity. Qed.

Lemma toLowerCase_idem s : JS.toLowerCase (JS.toLowerCase s) = JS.toLowerCase s.
Proof.
  induction s as [|c s IH]; [done|]. simpl. by rewrite lower_char_idem, IH.
Qed.

Lemma respects_weaken P K K' {A} (m : M A) :
  (∀ k, K k → K' k) → respects P K m → respects P K' m.
Proof. intros HK Hm env s. split; [apply Hm | apply HK, Hm]. Qed.

Lemma settled_returns update : settled update returns.
Proof. done. Qed.

Lemma settled_throws update : settled update throws.
Proof. done. Qed.

Create HintDb respects.

#[local] Hint Resolve settled_returns settled_throws : respects.
#[local] Hint Constructors ingest_event : respects.

Lemma fetchAddressEtherscan_respects update a :
  respects (ingest_event update) (settled update) (fetchAddressEtherscan a).
Proof.
  unfold fetchAddressEtherscan.
  apply respects_bind; [apply respects_fetchText; auto with respects|].
  intros html. apply respects_bind; [apply respects_ask; auto with respects|].
  intros env. cbv zeta. apply respects_bind.
  - repeat case_match; try (apply respects_ret; auto with respects);
      try (apply respects_throw; auto with respects).
    apply respects_bind; [apply respects_assert; auto with respects|].
    intros _. apply respects_ret; auto with respects.
  - intros cargs. apply respects_ret; auto with respects.
Qed.

Lemma fetchAddressBlockchair_respects update a :
  respects (ingest_event update) (settled update) (fetchAddressBlockchair a).
Proof.
  unfold fetchAddressBlockchair.
  apply respects_bind; [apply respects_fetchText; auto with respects|].
  intros text. apply respects_bind; [apply respects_ask; auto with respects|].
  intros env. apply respects_bind.
  { case_match; [apply respects_ret | apply respects_throw]; auto with respects. }
  intros result. apply respects_bind; [apply respects_assert; auto with respects|].
  intros _. apply respects_bind.
  { case_match; [apply respects_ret | apply respects_throw]; auto with respects. }
  intros row. apply respects_bind; [apply respects_getTxInfo; auto with respects|].
  intros txInfo. apply respects_bind; [apply respects_assert; auto with respects|].
  intros _. apply respects_ret; auto with respects.
Qed.

(** [onExistsUpdate] does not return: what follows it is never run. *)
Lemma respects_onExistsUpdate_bind {A B} update (f : A → M B) :
  update = true →
  respects (ingest_event update) (settled update) (bind onExistsUpdate f).
Proof.
  intros Hu env s. split; [by repeat constructor|].
  split; [done|]. by intros code [= <-].
Qed.

Lemma fetchAddress_respects a0 options :
  respects (ingest_event (Options.update options))
    (settled (Options.update options)) (fetchAddress a0 options).
Proof.
  unfold fetchAddress.
  pose proof (toLowerCase_idem a0) as Hlow.
  apply respects_bind; [apply respects_exists; auto with respects|].
  intros [].
  - destruct (Options.update options) eqn:Hu.
    + by apply respects_onExistsUpdate_bind.
    + apply respects_bind; [apply respects_ret; auto with respects|].
      intros _. apply respects_console_log; auto with respects.
  - apply respects_bind.
    { apply respects_Promise_all2;
        [apply fetchAddressEtherscan_respects
        | apply fetchAddressBlockchair_respects]. }
    intros both. cbv zeta.
    apply respects_bind; [apply respects_console_log; auto with respects|].
    intros _. apply respects_bind.
    { case_match; [apply respects_ret | apply respects_throw];
        auto with respects. }
    intros compilerMark.
    apply respects_bind; [apply respects_ask; auto with respects|].
    intros env.
    apply respects_bind; [apply respects_assert; auto with respects|].
    intros _.
    apply respects_bind; [apply respects_save; auto with respects|].
    intros added. destruct (negb added && Options.update options)%bool eqn:Hc.
    + apply respects_onExistsUpdate_bind.
      by apply andb_prop in Hc as [_ ?].
    + apply respects_bind; [apply respects_ret; auto with respects|].
      intros _. apply respects_console_log; auto with respects.
Qed.

Lemma fetchPage_respects page options :
  respects (ingest_event (Options.update options))
    (settled (Options.update options)) (fetchPage page options).
Proof.
  unfold fetchPage.
  apply respects_bind; [apply respects_fetchText; auto with respects|].
  intros html.
  apply respects_bind; [apply respects_console_log; auto with respects|].
  intros _. apply respects_bind; [apply respects_ask; auto with respects|].
  intros env. cbv zeta. apply respects_bind.
  { apply respects_for_of; [auto with respects|].
    intros a. apply fetchAddress_respects. }
  intros _. case_match; [apply respects_ret | apply respects_throw];
    auto with respects.
Qed.

Lemma settled_exits_on_update update k :
  settled update k → exits_on_update update k.
Proof. by intros [_ ?]. Qed.

Lemma fetchPages_respects fuel page up options :
  respects (ingest_event (Options.update options))
    (exits_on_update (Options.update options))
    (fetchPages fuel page up options).
Proof.
  revert page. induction fuel as [|fuel IH]; intros page; simpl.
  - by split.
  - apply respects_bind.
    { eapply respects_weaken; [apply settled_exits_on_update|].
      apply fetchPage_respects. }
    intros total. case_match; [by apply respects_ret | apply IH].
Qed.

Lemma main_after_load_respects fuel args options :
  respects (ingest_event (Options.update options))
    (exits_on_update (Options.update options))
    (main_after_load fuel args options).
Proof.
  unfold main_after_load.
  apply respects_bind.
  { repeat case_match; try by apply respects_ret.
    eapply respects_weaken; [apply settled_exits_on_update|].
    apply fetchAddress_respects. }
  intros _. apply respects_bind.
  { repeat case_match; try by apply respects_ret.
    apply respects_bind; [|intros; by apply respects_ret].
    eapply respects_weaken; [apply settled_exits_on_update|].
    apply fetchPage_respects. }
  intros _. repeat case_match; try by apply respects_ret.
  apply fetchPages_respects.
Qed.

Lemma bind_bind_ret {A B C} (m : M A) (g : A → B) (f : B → M C) env s :
  bind (bind m (fun x => ret (g x))) f env s
  = bind m (fun x => f (g x)) env s.
Proof.
  unfold bind, ret. destruct (m env s) as [[[a| | |] s1] t1]; try done.
  destruct (f (g a) env s1) as [[r2 s2] t2]. by rewrite app_nil_r.
Qed.

(** A run of [main]: the request for the manifest, and then the work on the
    options with the index built from the answer. *)
Lemma main_inv fuel args env s r s' t :
  main fuel args env s = (r, s', t) →
  ∃ t2, t = EvFetch Manifest None (http env (clock s) Manifest) :: t2
  ∧ Forall (ingest_event (Args.update args)) t2
  ∧ exits_on_update (Args.update args) (ending_of r)
  ∧ match http env (clock s) Manifest with
    | Response status body =>
        if status =? 200 then
          main_after_load fuel args
            (Options.mk (soljsonVersions_of body) (Args.update args))
            env (tick s (store s)) = (r, s', t2)
        else t2 = [] ∧ r = Throw (AssertionError StatusIs200)
             ∧ s' = tick s (store s)
    | NetworkError => t2 = [] ∧ r = Throw FetchError ∧ s' = tick s (store s)
    end.
Proof.
  intros H.
  assert (bind (fetchText Manifest None)
            (fun text => main_after_load fuel args
               (Options.mk (soljsonVersions_of text) (Args.update args)))
            env s = (r, s', t)) as H'.
  { rewrite <- H. symmetry.
    apply (bind_bind_ret (fetchText Manifest None) soljsonVersions_of
             (fun soljsonVersions => main_after_load fuel args
                (Options.mk soljsonVersions (Args.update args)))). }
  clear H. apply bind_fetchText in H'.
  destruct (http env (clock s) Manifest) as [|status body].
  { destruct H' as (-> & -> & ->). exists []. by repeat split. }
  destruct (status =? 200).
  2:{ destruct H' as (-> & -> & ->). exists []. by repeat split. }
  destruct H' as (t2 & H & ->). exists t2. split; [done|].
  pose proof (main_after_load_respects fuel args
                (Options.mk (soljsonVersions_of body) (Args.update args))
                env (tick s (store s))) as [Hall Hend].
  rewrite H in Hall, Hend. done.
Qed.

Lemma main_events fuel args env s r s' t ev :
  main fuel args env s = (r, s', t) →
  In ev t →
  ev = EvFetch Manifest None (http env (clock s) Manifest)
  ∨ ingest_event (Args.update args) ev.
Proof.
  intros (t2 & -> & Hall & _)%main_inv [<-|Hin]; [by left | right].
  rewrite Forall_forall in Hall. apply Hall. by apply list_elem_of_In.
Qed.

(** X2. Every request of a run of [main] goes through the queue of its
    site: the pages of the listing site through the queue "etherscan", the
    calls of source B through the queue "blockchair", and the manifest
    through none. *)
Theorem one_queue_per_site fuel args env s r s' t req id res :
  main fuel args env s = (r, s', t) →
  In (EvFetch req id res) t →
  id = throttle_key req.
Proof.
  intros Hrun Hin.
  destruct (main_events _ _ _ _ _ _ _ _ Hrun Hin) as [[= -> -> _]|Hev];
    [done | by inversion Hev].
Qed.

(** X3. A run of [main] asks the store and the ledger about the network
    "foundation" only, and every address it asks the store about, and the
    address of every record it hands to the store, is in lower case: the
    store is keyed by (lower-case address, "foundation"). *)
Theorem store_keys_canonical fuel args env s r s' t :
  main fuel args env s = (r, s', t) →
  (∀ a network found, In (EvExists a network found) t →
     network = "foundation" ∧ JS.toLowerCase a = a)
  ∧ (∀ c added, In (EvSave c added) t →
       ∃ a, Contract.key c = (a, "foundation") ∧ JS.toLowerCase a = a)
  ∧ (∀ network txid res, In (EvGetTxInfo network txid res) t →
       network = "foundation").
Proof.
  intros Hrun. split; [|split].
  - intros a network found Hin.
    destruct (main_events _ _ _ _ _ _ _ _ Hrun Hin) as [[=]|Hev].
    by inversion Hev.
  - intros c added Hin.
    destruct (main_events _ _ _ _ _ _ _ _ Hrun Hin) as [[=]|Hev].
    inversion Hev as [| | | |? ? | c' added' Hn Ha | | | | |]; subst.
    exists (Info.address (Contract.info c)). split; [|done].
    unfold Contract.key. by rewrite Hn.
  - intros network txid res Hin.
    destruct (main_events _ _ _ _ _ _ _ _ Hrun Hin) as [[=]|Hev].
    by inversion Hev.
Qed.



(** ** A range of pages *)




(** ** The addresses of a listing page *)

Lemma checked_app t1 t2 : checked (t1 ++ t2) = checked t1 ++ checked t2.
Proof.
  induction t1 as [|ev t1 IH]; [done|].
  destruct ev; simpl; by rewrite ?IH.
Qed.

(** An ingestion asks the store about its address, once, and does not fail
    on the footer of a listing page. *)
Lemma fetchAddress_checked a0 options env s r s' t :
  fetchAddress a0 options env s = (r, s', t) →
  checked t = [JS.toLowerCase a0]
  ∧ r ≠ Throw (AssertionError PageFooterFound).
Proof.
  intros [Hrun _]%fetchAddress_run.
  inversion Hrun as [Hex | ra ta rb tb err Hno Ha Hb Hj | e ta b tb Hno Ha Hb Hm
                    | e ta b tb m1 Hno Ha Hb Hm | e ta b tb m1 added Hno Ha Hb Hm];
    subst.
  { split; [done | by destruct (Options.update options)]. }
  1-3: by inversion Ha; inversion Hb; subst; simpl in *; simplify_eq.
  destruct (negb added && Options.update options)%bool;
    by inversion Ha; inversion Hb; subst.
Qed.

Lemma for_of_checked options env xs s r s' t :
  for_of xs (fun address => fetchAddress address options) env s = (r, s', t) →
  checked t `prefix_of` map JS.toLowerCase xs
  ∧ (r = Ok tt → checked t = map JS.toLowerCase xs)
  ∧ r ≠ Throw (AssertionError PageFooterFound).
Proof.
  revert s r s' t. induction xs as [|x xs IH]; intros s r s' t H; simpl in H.
  - unfold ret in H. by simplify_eq.
  - apply bind_inv in H as [(? & s1 & t1 & t2 & H1 & H2 & ->)
                           | (r0 & H1 & Hh)].
    + apply fetchAddress_checked in H1 as [H1 _].
      apply IH in H2 as (Hpre & Hok & Hne).
      rewrite checked_app, H1. simpl. split; [by apply prefix_cons|].
      split; [|done]. intros Hr. by rewrite Hok.
    + apply fetchAddress_checked in H1 as [H1 Hne].
      rewrite H1. simpl. split; [apply prefix_cons, prefix_nil|].
      split; [intros ->; by destruct r0|].
      intros ->. destruct r0; simpl in Hh; by subst.
Qed.

(** X6. The rows of a listing page are ingested in the order of the page,
    each under its trimmed, lower-case address, and the footer is read only
    after the last row: the addresses the store is asked about are a prefix
    of the addresses of the page, all of them when [fetchPage] returns, and
    all of them when it fails for want of a footer. *)
Theorem listing_in_order page options env s r s' t body :
  fetchPage page options env s = (r, s', t) →
  http env (clock s) (ContractsVerified page) = Response 200 body →
  let doc := cheerio_listing env body in
  let addresses := map (fun a => JS.toLowerCase (JS.trim a)) (anchors doc) in
  checked t `prefix_of` addresses
  ∧ (∀ total, r = Ok total →
       checked t = addresses ∧ JS.match_page_of (doc_text doc) = Some total)
  ∧ (r = Throw (AssertionError PageFooterFound) →
       checked t = addresses ∧ JS.match_page_of (doc_text doc) = None).
Proof.
  unfold fetchPage. intros H Hhttp. apply bind_fetchText in H.
  rewrite Hhttp in H. simpl in H.
  destruct H as (t2 & H & ->).
  apply bind_console_log in H as (t3 & H & ->). rewrite bind_ask in H.
  cbv zeta in *. simpl.
  assert (map JS.toLowerCase
            (map (fun a => JS.toLowerCase (JS.trim a))
               (anchors (cheerio_listing env body)))
          = map (fun a => JS.toLowerCase (JS.trim a))
              (anchors (cheerio_listing env body))) as Hidem.
  { rewrite map_map. apply map_ext. intros a. apply toLowerCase_idem. }
  apply bind_inv in H as [(? & s1 & t1 & t4 & H1 & H2 & ->) | (r0 & H1 & Hh)].
  - apply for_of_checked in H1 as (_ & Hok & _).
    rewrite Hidem in Hok. rewrite checked_app, Hok by by destruct x.
    destruct (JS.match_page_of (doc_text (cheerio_listing env body)))
      as [total|]; unfold ret, throw in H2; simplify_eq; simpl;
      rewrite app_nil_r.
    + split; [done|]. split; [|done]. by intros ? [= ->].
    + done.
  - apply for_of_checked in H1 as (Hpre & _ & Hne). rewrite Hidem in Hpre.
    split; [done|]. split.
    + intros total ->. by destruct r0.
    + intros ->. destruct r0; simpl in Hh; by subst.
Qed.

(** ** More facts about the string functions *)

Lemma append_nil_r s : s +:+ "" = s.
Proof. induction s as [|c s IH]; [done|]. by rewrite append_cons, IH. Qed.

Lemma append_assoc a b c : (a +:+ b) +:+ c = a +:+ (b +:+ c).
Proof. induction a as [|x a IH]; [done|]. by rewrite !append_cons, IH. Qed.

Lemma length_append a b :
  String.length (a +:+ b) = (String.length a + String.length b)%nat.
Proof. induction a as [|x a IH]; [done|]. rewrite append_cons. simpl. lia. Qed.

Lemma rev_app_append a b acc :
  String.rev_app (a +:+ b) acc = String.rev_app b (String.rev_app a acc).
Proof.
  revert acc. induction a as [|x a IH]; intros acc; [done|].
  rewrite append_cons. simpl. apply IH.
Qed.

Lemma rev_app_rev_app a b c :
  String.rev_app (String.rev_app a b) c = String.rev_app b (a +:+ c).
Proof.
  revert b c. induction a as [|x a IH]; intros b c; [done|].
  simpl. by rewrite IH.
Qed.

Lemma rev_involutive s : String.rev (String.rev s) = s.
Proof. unfold String.rev. rewrite rev_app_rev_app. simpl. apply append_nil_r. Qed.

Lemma rev_app_acc a acc : String.rev_app a acc = String.rev a +:+ acc.
Proof.
  unfold String.rev. revert acc.
  induction a as [|x a IH]; intros acc; [done|].
  simpl. rewrite (IH (String x acc)), (IH (String x "")).
  by rewrite append_assoc.
Qed.

Lemma rev_append a b : String.rev (a +:+ b) = String.rev b +:+ String.rev a.
Proof. unfold String.rev at 1. by rewrite rev_app_append, rev_app_acc. Qed.

Lemma all_chars_append p a b :
  all_chars p (a +:+ b) = (all_chars p a && all_chars p b)%bool.
Proof.
  induction a as [|x a IH]; [done|].
  rewrite append_cons. simpl. by rewrite IH, andb_assoc.
Qed.

Lemma all_chars_rev p s : all_chars p (String.rev s) = all_chars p s.
Proof.
  induction s as [|x s IH]; [done|].
  change (String x s) with (String x "" +:+ s) at 1.
  rewrite rev_append, all_chars_append, IH. simpl.
  rewrite andb_true_r. apply andb_comm.
Qed.

Lemma truthy_rev s : JS.truthy (String.rev s) = JS.truthy s.
Proof. unfold String.rev. by rewrite truthy_rev_app, orb_false_r. Qed.

(** The trailing run of a class: it ends the string and lies in the class. *)
Lemma trailing_run_spec p s :
  ∃ head, s = head +:+ JS.trailing_run p s
  ∧ all_chars p (JS.trailing_run p s) = true.
Proof.
  unfold JS.trailing_run.
  destruct (span_spec p (String.rev s)) as [Happ Hall].
  exists (String.rev (snd (JS.span p (String.rev s)))). split.
  - rewrite <- rev_append, <- Happ. by rewrite rev_involutive.
  - by rewrite all_chars_rev.
Qed.

Lemma trailing_run_stop p head c run :
  p c = false → all_chars p run = true →
  JS.trailing_run p (head +:+ String c run) = run.
Proof.
  intros Hc Hrun. unfold JS.trailing_run.
  change (String c run) with (String c "" +:+ run).
  rewrite !rev_append. rewrite append_assoc.
  change (String.rev (String c "")) with (String c "").
  rewrite append_cons. change ("" +:+ String.rev head) with (String.rev head).
  rewrite span_stop by (by rewrite ?all_chars_rev).
  apply rev_involutive.
Qed.

Lemma match_trailing_alnum_Some s match1 :
  JS.match_trailing_alnum s = Some match1 →
  JS.truthy match1 = true
  ∧ all_chars JS.is_lower_alnum match1 = true
  ∧ ∃ head, s = head +:+ match1.
Proof.
  unfold JS.match_trailing_alnum.
  destruct (trailing_run_spec JS.is_lower_alnum s) as (head & Hs & Hall).
  destruct (JS.truthy (JS.trailing_run JS.is_lower_alnum s)) eqn:Ht; [|done].
  intros [= <-]. eauto.
Qed.

Lemma match_trailing_alnum_stop head c run :
  JS.is_lower_alnum c = false →
  JS.truthy run = true → all_chars JS.is_lower_alnum run = true →
  JS.match_trailing_alnum (head +:+ String c run) = Some run.
Proof.
  intros Hc Ht Hrun. unfold JS.match_trailing_alnum.
  by rewrite trailing_run_stop, Ht.
Qed.

Lemma substring_0_all p n s :
  all_chars p s = true → all_chars p (substring 0 n s) = true.
Proof.
  revert s. induction n as [|n IH]; intros [|c s]; simpl; try done.
  intros [Hc Hs]%andb_prop. by rewrite Hc, IH.
Qed.

Lemma substring_0_length n s : (String.length (substring 0 n s) ≤ n)%nat.
Proof.
  revert s. induction n as [|n IH]; intros [|c s]; simpl; try lia.
  specialize (IH s). lia.
Qed.

Lemma substring_0_append a b : substring 0 (String.length a) (a +:+ b) = a.
Proof.
  induction a as [|x a IH]; [by destruct b|].
  rewrite append_cons. simpl. by rewrite IH.
Qed.

Lemma substring_skip a n b :
  substring (String.length a) n (a +:+ b) = substring 0 n b.
Proof. induction a as [|x a IH]; [done|]. rewrite append_cons. apply IH. Qed.

(** [s.slice(0, 6)]: the first six characters, or all of them. *)
Lemma slice_0_6 s :
  JS.slice s 0 6 = substring 0 (Nat.min 6 (String.length s)) s.
Proof.
  unfold JS.slice, JS.clamp.
  change (0 <? 0) with false. change (6 <? 0) with false. cbv iota zeta.
  f_equal; lia.
Qed.

Lemma slice_0_6_shape p s :
  JS.truthy s = true → all_chars p s = true →
  JS.truthy (JS.slice s 0 6) = true
  ∧ (String.length (JS.slice s 0 6) ≤ 6)%nat
  ∧ all_chars p (JS.slice s 0 6) = true.
Proof.
  intros Ht Hall. rewrite slice_0_6. split; [|split].
  - by destruct s.
  - etrans; [apply substring_0_length | lia].
  - by apply substring_0_all.
Qed.

(** ** The keys and the entries of the index *)

(** The fingerprint of a line: at most six characters of [a-z0-9], and at
    least one. *)
Lemma fingerprint_shape line f :
  fingerprint line = Some f →
  JS.truthy f = true ∧ (String.length f ≤ 6)%nat
  ∧ all_chars JS.is_lower_alnum f = true.
Proof.
  unfold fingerprint, JS.match_js_file.
  destruct (JS.strip_suffix ".js" line) as [stem|]; [|done].
  destruct (JS.match_trailing_alnum stem) as [m|] eqn:Hm; [|done].
  intros [= <-]. apply match_trailing_alnum_Some in Hm as (Ht & Hall & _).
  by apply slice_0_6_shape.
Qed.

Lemma soljsonVersions_fold_inv lines acc f v :
  fold_left soljsonVersions_line lines acc !! f = Some v →
  acc !! f = Some v
  ∨ ∃ line, In line lines ∧ fingerprint line = Some f ∧ v = version line.
Proof.
  revert acc. induction lines as [|l lines IH]; intros acc H; [by left|].
  simpl in H. apply IH in H as [H | (line & Hin & Hf & ->)].
  - destruct (decide (fingerprint l = Some f)) as [Hl|Hl].
    + rewrite soljsonVersions_line_same in H by done.
      destruct (acc !! f) as [w|].
      * destruct (JS.includes "commit" w); [by left|].
        right. exists l. split; [by left|]. split; [done | congruence].
      * right. exists l. split; [by left|]. split; [done | congruence].
    + rewrite soljsonVersions_line_other in H by done. by left.
  - right. exists line. split; [by right | done].
Qed.

Lemma soljsonVersions_fold_mono lines acc f :
  is_Some (acc !! f) →
  is_Some (fold_left soljsonVersions_line lines acc !! f).
Proof.
  revert acc. induction lines as [|l lines IH]; intros acc H; [done|].
  simpl. apply IH.
  destruct (decide (fingerprint l = Some f)) as [Hl|Hl].
  - rewrite soljsonVersions_line_same by done.
    destruct (acc !! f) as [w|]; [|done]. by destruct (JS.includes "commit" w).
  - by rewrite soljsonVersions_line_other.
Qed.

Lemma soljsonVersions_fold_filed lines acc line f :
  In line lines → fingerprint line = Some f →
  is_Some (fold_left soljsonVersions_line lines acc !! f).
Proof.
  revert acc. induction lines as [|l lines IH]; intros acc Hin Hf; [done|].
  simpl. destruct Hin as [->|Hin]; [|by apply IH].
  apply soljsonVersions_fold_mono.
  rewrite soljsonVersions_line_same by done.
  destruct (acc !! f) as [w|]; [|done]. by destruct (JS.includes "commit" w).
Qed.

(** X8. The keys of the index are fingerprints: every key is made of one to
    six characters of [a-z0-9]. *)
Theorem index_keys text f :
  is_Some (soljsonVersions_of text !! f) →
  JS.truthy f = true ∧ (String.length f ≤ 6)%nat
  ∧ all_chars JS.is_lower_alnum f = true.
Proof.
  intros [v [H|(line & _ & Hf & _)]%soljsonVersions_fold_inv]; [done|].
  by eapply fingerprint_shape.
Qed.

(** X9. The index has an entry for a fingerprint exactly when a line of the
    manifest is filed under it, and the entry is then the version string of
    one of those lines. *)
Theorem index_entries text f :
  (is_Some (soljsonVersions_of text !! f)
   ↔ ∃ line, In line (JS.split "010" text) ∧ fingerprint line = Some f)
  ∧ (∀ v, soljsonVersions_of text !! f = Some v →
       ∃ line, In line (JS.split "010" text)
               ∧ fingerprint line = Some f ∧ v = version line).
Proof.
  assert (∀ v, soljsonVersions_of text !! f = Some v →
            ∃ line, In line (JS.split "010" text)
                    ∧ fingerprint line = Some f ∧ v = version line) as Hinv.
  { by intros v [H|H]%soljsonVersions_fold_inv. }
  split; [|done]. split.
  - intros [v (line & Hin & Hf & _)%Hinv]. eauto.
  - intros (line & Hin & Hf). by eapply soljsonVersions_fold_filed.
Qed.

(** X10. Among the lines filed under a fingerprint, the first whose version
    string contains "commit" gives the entry, whatever the number of lines
    before and after it. *)
Theorem index_first_commit text f pre l post :
  JS.split "010" text = pre ++ l :: post →
  fingerprint l = Some f →
  JS.includes "commit" (version l) = true →
  Forall (fun l' => fingerprint l' = Some f →
                    JS.includes "commit" (version l') = false) pre →
  soljsonVersions_of text !! f = Some (version l).
Proof.
  intros Hlines Hl Hc Hpre. unfold soljsonVersions_of. rewrite Hlines.
  by apply soljsonVersions_first_commit.
Qed.



(** ** The record that is saved *)

(** What stands behind a record handed to [save]: the page of the address,
    answered with status 200, the one row of source B, the transaction of
    that row in the ledger, and the version string found for the
    fingerprint of the page. *)
Lemma address_run_record options env s a r t c added :
  address_run options env s a r t →
  In (EvSave c added) t →
  ∃ body cargs row i match1 v,
    In (EvFetch (AddressPage a) (Some "etherscan") (Response 200 body)) t
    ∧ page_cargs (cheerio_detail env body) = Some cargs
    ∧ In (EvGetTxInfo "foundation" (transaction_hash row) (Some i)) t
    ∧ TxInfo.address i = a
    ∧ JS.match_trailing_alnum (JS.trim (td_compiler (cheerio_detail env body)))
      = Some match1
    ∧ resolve options env (JS.slice match1 0 6) = Some v
    ∧ JS.truthy v = true
    ∧ c = assemble a (page_fields env a (cheerio_detail env body) cargs)
            (Blockchair.mk (transaction_hash row) (TxInfo.bin i)) v
    ∧ saved t = [c].
Proof.
  intros Hrun Hin.
  inversion Hrun as [Hex | ra ta rb tb err Hno Ha Hb Hj | e ta b tb Hno Ha Hb Hm
                    | e ta b tb m1 Hno Ha Hb Hm Hv
                    | e ta b tb m1 added' Hno Ha Hb Hm Hv];
    subst.
  { in_trace Hin; by destruct (Options.update options). }
  1-3: by inversion Ha; inversion Hb; subst; in_trace Hin.
  inversion Ha as [| | |body cargs Hhttp Hcargs]; subst.
  inversion Hb as [| | | | | |body' result row i Hhttp' Hjson Hdata Hledger Hi];
    subst.
  simpl in Hm.
  destruct (resolve options env (JS.slice m1 0 6)) as [v|] eqn:Hres; [|done].
  simpl in Hv.
  assert (c = assemble (TxInfo.address i)
                (page_fields env (TxInfo.address i) (cheerio_detail env body)
                   cargs)
                (Blockchair.mk (transaction_hash row) (TxInfo.bin i)) v) as ->.
  { in_trace Hin; simplify_eq; try done;
      by destruct (negb added' && Options.update options)%bool. }
  exists body, cargs, row, i, m1, v.
  split; [simpl; eauto 10|]. split; [done|]. split; [simpl; eauto 10|].
  split; [done|]. split; [done|]. split; [done|]. split; [done|].
  split; [done|]. simpl.
  by destruct (negb added' && Options.update options)%bool.
Qed.

(** X12. The compiler of a saved record is a version string of the index,
    and not the empty one: the entry of the fingerprint of the compiler
    string shown by the page when that entry is there and not empty, and
    else the entry of the alias of the fingerprint. *)
Theorem compiler_field a0 options env s r s' t c added :
  fetchAddress a0 options env s = (r, s', t) →
  In (EvSave c added) t →
  ∃ body match1,
    In (EvFetch (AddressPage (JS.toLowerCase a0)) (Some "etherscan")
          (Response 200 body)) t
    ∧ JS.match_trailing_alnum (JS.trim (td_compiler (cheerio_detail env body)))
      = Some match1
    ∧ JS.truthy (Info.compiler (Contract.info c)) = true
    ∧ let index := Options.soljsonVersions options in
      let compilerMark := JS.slice match1 0 6 in
      index !! compilerMark = Some (Info.compiler (Contract.info c))
      ∨ (JS.truthy (default "" (index !! compilerMark)) = false
         ∧ ∃ alias, compilersMap env !! compilerMark = Some alias
                    ∧ index !! alias = Some (Info.compiler (Contract.info c)))
      ∨ (JS.truthy (default "" (index !! compilerMark)) = false
         ∧ compilersMap env !! compilerMark = None
         ∧ index !! "undefined" = Some (Info.compiler (Contract.info c))).
Proof.
  intros [Hrun _]%fetchAddress_run Hin.
  destruct (address_run_record _ _ _ _ _ _ _ _ Hrun Hin)
    as (body & cargs & row & i & m1 & v & Hpage & _ & _ & _ & Hm & Hres & Hv
        & -> & _).
  exists body, m1. split; [done|]. split; [done|]. split; [done|].
  cbv zeta. simpl. revert Hres. unfold resolve, or_else, property.
  destruct (Options.soljsonVersions options !! JS.slice m1 0 6) as [w|] eqn:Hw.
  - simpl. destruct (JS.truthy w) eqn:Htw; [intros [= ->]; by left|].
    intros Hres. right.
    destruct (compilersMap env !! JS.slice m1 0 6) as [alias|]; simpl in Hres.
    + left. eauto.
    + right. eauto.
  - simpl. intros Hres. right.
    destruct (compilersMap env !! JS.slice m1 0 6) as [alias|]; simpl in Hres.
    + left. eauto.
    + right. eauto.
Qed.

(** X13. A saved record joins the two sources: it is filed under the
    lower-case address on "foundation"; its name, source and interface are
    the trimmed texts of the page of that address; its entry point is the
    name with ".sol" and the only file of its sources; its transaction is the
    one source B names, and its code is the code the ledger has for that
    transaction, which the ledger attributes to the same address. No other
    record is handed to the store in the run. *)
Theorem record_joins_sources a0 options env s r s' t c added :
  fetchAddress a0 options env s = (r, s', t) →
  In (EvSave c added) t →
  let a := JS.toLowerCase a0 in
  let i := Contract.info c in
  saved t = [c]
  ∧ Contract.key c = (a, "foundation")
  ∧ Info.entrypoint i = Info.name i +:+ ".sol"
  ∧ (∃ body,
       In (EvFetch (AddressPage a) (Some "etherscan") (Response 200 body)) t
       ∧ Info.name i = JS.trim (td_name (cheerio_detail env body))
       ∧ Contract.abi c = JS.trim (pre_abi (cheerio_detail env body))
       ∧ Contract.src c
         = {[ Info.entrypoint i
              := JS.trim (pre_editor (cheerio_detail env body)) ]})
  ∧ (∃ txInfo,
       In (EvGetTxInfo "foundation" (Info.txid i) (Some txInfo)) t
       ∧ Contract.bin c = TxInfo.bin txInfo
       ∧ TxInfo.address txInfo = a).
Proof.
  intros [Hrun _]%fetchAddress_run Hin.
  destruct (address_run_record _ _ _ _ _ _ _ _ Hrun Hin)
    as (body & cargs & row & i & m1 & v & Hpage & _ & Hledger & Hi & _ & _ & _
        & -> & Hsaved).
  cbv zeta. split; [done|]. split; [done|]. split; [done|]. split.
  - exists body. by repeat split.
  - exists i. by repeat split.
Qed.

(** X14. A fingerprint without a version string is refused: when both
    sources have answered and neither the index nor the alias table leads
    from the fingerprint of the compiler string to a non-empty version
    string, the run throws on the assertion that names the address, and no
    record is handed to the store. *)
Theorem unknown_compiler_rejected a0 options env s r s' t x id status body
    match1 :
  fetchAddress a0 options env s = (r, s', t) →
  In (EvLog info (LoadAddress (JS.toLowerCase a0))) t →
  In (EvFetch (AddressPage x) id (Response status body)) t →
  JS.match_trailing_alnum (JS.trim (td_compiler (cheerio_detail env body)))
  = Some match1 →
  JS.truthy (default "" (resolve options env (JS.slice match1 0 6))) = false →
  r = Throw (AssertionError (CompilerVersionDefined (JS.toLowerCase a0)))
  ∧ ∀ c added, ¬ In (EvSave c added) t.
Proof.
  intros [Hrun _]%fetchAddress_run Hlog Hpage Hm Hv.
  inversion Hrun as [Hex | ra ta rb tb err Hno Ha Hb Hj | e ta b tb Hno Ha Hb Hm'
                    | e ta b tb m1 Hno Ha Hb Hm' Hv'
                    | e ta b tb m1 added' Hno Ha Hb Hm' Hv'];
    subst.
  - in_trace Hlog; by destruct (Options.update options).
  - inversion Ha; inversion Hb; subst; in_trace Hlog.
  - inversion Ha; subst.
    assert (body0 = body) as ->
      by (inversion Hb; subst; in_trace Hpage; by simplify_eq).
    simpl in Hm'. congruence.
  - split; [done|]. intros c added Hin.
    inversion Ha; inversion Hb; subst; in_trace Hin.
  - inversion Ha; subst.
    assert (body0 = body) as ->.
    { inversion Hb; subst; in_trace Hpage; simplify_eq; try done;
        by destruct (negb added' && Options.update options)%bool. }
    simpl in Hm'. congruence.
Qed.

(** ** From the compiler string of a page to the manifest *)

Lemma strip_suffix_append stem suffix :
  JS.strip_suffix suffix (stem +:+ suffix) = Some stem.
Proof.
  unfold JS.strip_suffix. rewrite length_append.
  replace (String.length stem + String.length suffix - String.length suffix)%nat
    with (String.length stem) by lia.
  rewrite substring_skip, substring_0_append.
  replace (substring 0 (String.length suffix) suffix) with suffix.
  2:{ rewrite <- (append_nil_r suffix) at 3. by rewrite substring_0_append. }
  rewrite String.eqb_refl, andb_true_r.
  destruct (Nat.leb_spec (String.length suffix)
              (String.length stem + String.length suffix)); [done | lia].
Qed.

Lemma trimStart_cons c s :
  JS.is_space c = false → JS.trimStart (String c s) = String c s.
Proof. intros Hc. unfold JS.trimStart. simpl. by rewrite Hc. Qed.

Lemma trimEnd_snoc s d :
  JS.is_space d = false →
  JS.trimEnd (s +:+ String d "") = s +:+ String d "".
Proof.
  intros Hd. unfold JS.trimEnd. rewrite rev_append.
  change (String.rev (String d "")) with (String d "").
  rewrite append_cons, trimStart_cons by done.
  change (String d ("" +:+ String.rev s))
    with (String.rev (String d "") +:+ String.rev s).
  by rewrite <- rev_append, rev_involutive.
Qed.

Lemma trim_id c s d :
  JS.is_space c = false → JS.is_space d = false →
  JS.trim (String c s +:+ String d "") = String c s +:+ String d "".
Proof.
  intros Hc Hd. unfold JS.trim.
  rewrite append_cons, trimStart_cons by done.
  rewrite <- append_cons. by apply trimEnd_snoc.
Qed.

(** The line of the manifest for the build [c]: it is filed under the
    fingerprint of [c], and its version string is [c] without its first
    character. *)
Lemma fingerprint_build head sep hash :
  JS.is_lower_alnum sep = false →
  JS.truthy hash = true → all_chars JS.is_lower_alnum hash = true →
  JS.match_trailing_alnum (head +:+ String sep hash) = Some hash
  ∧ fingerprint ("soljson-" +:+ (head +:+ String sep hash) +:+ ".js")
    = Some (JS.slice hash 0 6).
Proof.
  intros Hsep Ht Hall. split; [by apply match_trailing_alnum_stop|].
  unfold fingerprint, JS.match_js_file.
  rewrite <- append_assoc, strip_suffix_append, <- append_assoc.
  by rewrite match_trailing_alnum_stop.
Qed.

Lemma version_build x rest :
  version ("soljson-" +:+ String x rest +:+ ".js") = rest.
Proof.
  unfold version.
  assert (JS.trim ("soljson-" +:+ String x rest +:+ ".js")
          = "soljson-" +:+ String x rest +:+ ".js") as ->.
  { assert ("soljson-" +:+ String x rest +:+ ".js"
            = String "s" ("oljson-" +:+ String x rest +:+ ".j")
              +:+ String "s" "") as ->
      by (transitivity (("soljson-" +:+ String x rest +:+ ".j") +:+ "s");
          [by rewrite !append_assoc | reflexivity]).
    by apply trim_id. }
  unfold JS.slice, JS.clamp.
  rewrite !length_append. simpl String.length.
  change (9 <? 0) with false. change (-3 <? 0) with true. cbv iota zeta.
  replace (Z.to_nat (Z.min 9 _)) with 9%nat by lia.
  match goal with
  | |- substring _ ?n _ = _ =>
      replace n with (String.length rest) by lia
  end.
  change ("soljson-" +:+ String x rest +:+ ".js")
    with (String "s" (String "o" (String "l" (String "j" (String "s"
           (String "o" (String "n" (String "-" (String x
              (rest +:+ ".js")))))))))).
  simpl. apply substring_0_append.
Qed.

Lemma includes_truthy needle hay :
  JS.truthy needle = true → JS.includes needle hay = true →
  JS.truthy hay = true.
Proof. by destruct needle, hay. Qed.

(** X15. A build that the manifest lists is found. Let the page show the
    compiler string [c], of which the last character outside [a-z0-9] is
    followed by the commit hash, and let the manifest have the line
    "soljson-" ++ c ++ ".js", no earlier line filed under the same
    fingerprint having "commit" in its version string. When [c] without its
    first character (the "v") contains "commit", that is the version string
    found for the page. *)
Theorem build_resolves text pre post head sep hash x rest options env :
  String x rest = head +:+ String sep hash →
  JS.is_lower_alnum sep = false →
  JS.truthy hash = true → all_chars JS.is_lower_alnum hash = true →
  JS.includes "commit" rest = true →
  JS.split "010" text
  = pre ++ ("soljson-" +:+ String x rest +:+ ".js") :: post →
  Forall (fun l' => fingerprint l' = Some (JS.slice hash 0 6) →
                    JS.includes "commit" (version l') = false) pre →
  Options.soljsonVersions options = soljsonVersions_of text →
  JS.match_trailing_alnum (String x rest) = Some hash
  ∧ resolve options env (JS.slice hash 0 6) = Some rest.
Proof.
  intros Hc Hsep Ht Hall Hcommit Hlines Hpre Hindex.
  destruct (fingerprint_build head sep hash Hsep Ht Hall) as [Hm Hf].
  rewrite <- Hc in Hm, Hf. split; [done|].
  unfold resolve, or_else. rewrite Hindex.
  unfold soljsonVersions_of. rewrite Hlines.
  rewrite (soljsonVersions_first_commit _ pre _ post Hf);
    rewrite ?version_build; try done.
  by rewrite (includes_truthy "commit" rest).
Qed.

(** X16. The index built from a manifest has no entry under "undefined":
    for a fingerprint without alias only its own entry counts, and the
    lookup under the missing alias finds nothing. *)
Theorem alias_miss_finds_nothing text update env compilerMark :
  compilersMap env !! compilerMark = None →
  let index := soljsonVersions_of text in
  index !! "undefined" = None
  ∧ resolve (Options.mk index update) env compilerMark
    = if JS.truthy (default "" (index !! compilerMark))
      then index !! compilerMark else None.
Proof.
  intros Halias index.
  assert (index !! "undefined" = None) as Hundef.
  { destruct (index !! "undefined") as [v|] eqn:Hv; [|done].
    apply soljsonVersions_fold_inv in Hv as [Hv|(line & _ & Hf & _)]; [done|].
    apply fingerprint_shape in Hf as (_ & Hlen & _). simpl in Hlen. lia. }
  split; [done|]. unfold resolve, or_else, property. simpl.
  rewrite Halias. simpl. fold index. rewrite Hundef.
  by destruct (index !! compilerMark) as [[|c v]|].
Qed.

(** ** The further properties on the examples *)

Lemma one_queue_per_site_witness :
  Some "etherscan" = throttle_key (ContractsVerified 1).
Proof.
  apply (one_queue_per_site 5 args_update world_update empty_state
           run_update.1.1 run_update.1.2 run_update.2
           (ContractsVerified 1) (Some "etherscan") (Response 200 "1")).
  - vm_compute. reflexivity.
  - vm_compute. right. left. reflexivity.
Defined.

Lemma store_keys_canonical_witness :
  (∀ a network found, In (EvExists a network found) run_update.2 →
     network = "foundation" ∧ JS.toLowerCase a = a)
  ∧ (∀ c added, In (EvSave c added) run_update.2 →
       ∃ a, Contract.key c = (a, "foundation") ∧ JS.toLowerCase a = a)
  ∧ (∀ network txid res, In (EvGetTxInfo network txid res) run_update.2 →
       network = "foundation").
Proof.
  apply (store_keys_canonical 5 args_update world_update empty_state
           run_update.1.1 run_update.1.2 run_update.2).
  vm_compute. reflexivity.
Defined.



Lemma listing_in_order_witness :
  checked run_listing.2
  `prefix_of` ["0xbbb"; "0xaaa"; "0xc1"; "0xc2"; "0xc3"].
Proof.
  destruct (listing_in_order 1 (sample_options false) world_update
              empty_state run_listing.1.1 run_listing.1.2 run_listing.2 "1")
    as [Hprefix _].
  - vm_compute. reflexivity.
  - reflexivity.
  - exact Hprefix.
Defined.


Lemma index_keys_witness :
  JS.truthy "abc123" = true ∧ (String.length "abc123" ≤ 6)%nat
  ∧ all_chars JS.is_lower_alnum "abc123" = true.
Proof.
  apply (index_keys manifest_sample "abc123").
  exists "0.4.0+commit.abc123de". reflexivity.
Defined.

Lemma index_first_commit_witness :
  soljsonVersions_of manifest_sample !! "abc123"
  = Some (version "soljson-v0.4.0+commit.abc123de.js").
Proof.
  apply (index_first_commit manifest_sample "abc123"
           ["soljson-v0.4.0-nightly.2016.9.9+abc123de.js";
            "soljson-v0.3.6+commit.3fc68da5.js"]
           "soljson-v0.4.0+commit.abc123de.js"
           ["soljson-latest.js"; ""]).
  - reflexivity.
  - reflexivity.
  - reflexivity.
  - constructor; [intros _; reflexivity|].
    constructor; [|constructor].
    intros H. vm_compute in H. discriminate H.
Defined.


Lemma compiler_field_witness :
  JS.truthy (Info.compiler (Contract.info record_bbb)) = true.
Proof.
  destruct (compiler_field "0xBBB" (sample_options false) world_bbb
              empty_state run_bbb.1.1 run_bbb.1.2 run_bbb.2 record_bbb true)
    as (body & match1 & _ & _ & Htruthy & _).
  - vm_compute. reflexivity.
  - vm_compute. do 5 right. left. reflexivity.
  - exact Htruthy.
Defined.

Lemma record_joins_sources_witness :
  saved run_bbb.2 = [record_bbb]
  ∧ Contract.key record_bbb = ("0xbbb", "foundation").
Proof.
  destruct (record_joins_sources "0xBBB" (sample_options false) world_bbb
              empty_state run_bbb.1.1 run_bbb.1.2 run_bbb.2 record_bbb true)
    as (Hsaved & Hkey & _).
  - vm_compute. reflexivity.
  - vm_compute. do 5 right. left. reflexivity.
  - split; [exact Hsaved | exact Hkey].
Defined.

Lemma unknown_compiler_rejected_witness :
  run_unknown.1.1 = Throw (AssertionError (CompilerVersionDefined "0xbbb"))
  ∧ ∀ c added, ¬ In (EvSave c added) run_unknown.2.
Proof.
  apply (unknown_compiler_rejected "0xBBB" (Options.mk ∅ false) world_bbb
           empty_state run_unknown.1.1 run_unknown.1.2 run_unknown.2
           "0xbbb" (Some "etherscan") 200 "0xbbb" "abc123de").
  - vm_compute. reflexivity.
  - vm_compute. do 4 right. left. reflexivity.
  - vm_compute. right. left. reflexivity.
  - reflexivity.
  - reflexivity.
Defined.

Lemma build_resolves_witness :
  JS.match_trailing_alnum "v0.4.0+commit.abc123de" = Some "abc123de"
  ∧ resolve (sample_options false) world_bbb (JS.slice "abc123de" 0 6)
    = Some "0.4.0+commit.abc123de".
Proof.
  apply (build_resolves manifest_sample
           ["soljson-v0.4.0-nightly.2016.9.9+abc123de.js";
            "soljson-v0.3.6+commit.3fc68da5.js"]
           ["soljson-latest.js"; ""]
           "v0.4.0+commit" "." "abc123de" "v" "0.4.0+commit.abc123de"
           (sample_options false) world_bbb).
  - reflexivity.
  - reflexivity.
  - reflexivity.
  - reflexivity.
  - reflexivity.
  - reflexivity.
  - constructor; [intros _; reflexivity|].
    constructor; [|constructor].
    intros H. vm_compute in H. discriminate H.
  - reflexivity.
Defined.

Lemma alias_miss_finds_nothing_witness :
  soljsonVersions_of manifest_sample !! "undefined" = None
  ∧ resolve (Options.mk (soljsonVersions_of manifest_sample) false)
      world_bbb "abc123"
    = if JS.truthy
           (default "" (soljsonVersions_of manifest_sample !! "abc123"))
      then soljsonVersions_of manifest_sample !! "abc123" else None.
Proof.
  apply (alias_miss_finds_nothing manifest_sample false world_bbb "abc123").
  reflexivity.
Defined.
